(* ===== verification/_CoqProject ===== *)
-Q . S2P
Prelude.v
Config.v
Grid.v
Piece.v
Engine.v
Loop.v
Cells.v
Liveness.v
Render.v
