(* ===== verification/Prelude.v ===== *)
(** * A verification of the Tetris engine of [src/tetris.py]

    ** The program

    [src/tetris.py] is one Python/pygame script.  Its algorithmic part is the
    class [Tetris] (lines 57-174) and the main loop (lines 176-223):
    - module constants [COLORS], [GRID_WIDTH] = 10, [GRID_HEIGHT] = 20 and the
      seven tetromino matrices [SHAPES] (lines 7-49);
    - [self.grid]: [GRID_HEIGHT] rows of [GRID_WIDTH] cells, each the integer
      [0] (empty) or a colour tuple; [self.current_piece]: a dict with a
      [shape] matrix, a [color] and an anchor [x], [y]; [self.game_over];
      [self.score];
    - [new_piece] draws a shape with [random.choice]; [valid_move] tests a
      displaced piece against the walls, the floor and the grid;
      [lock_piece] writes the piece into the grid, calls [clear_lines]
      (remove full rows, shift the rows above down, score 100/300/500/800),
      spawns the next piece and sets [game_over] if it collides;
      [rotate_piece] rotates the matrix and rolls back an invalid rotation;
      [update] is the gravity step;
    - the main loop dispatches the arrow keys (move, soft drop, rotate) and
      space (hard drop: a [while] loop, then [lock_piece]) while the game is
      not over, and calls [update] every [fall_speed] = 0.5 s.
    The components interact by calls on one object: the loop calls the
    methods, [lock_piece] calls [clear_lines] and [new_piece], every move
    is guarded by [valid_move], which reads the grid.

    ** Files, and how they correspond to the code

    - [Prelude] (this file): Python list semantics ([py_getitem] and
      [py_setitem] with negative indices counted from the end and
      [IndexError] as [None]; [py_index] for [list.index]; [enumerate]), the
      [py_scope] notations [l.[i]] and [l.[i := v]], the hint database
      [tetris], the tactics [eval_decide] and [py_in_range], and generic
      lemmas (a counting lemma on filters, floor division by 2).
    - [Config]: [COLORS], [SHAPES], the cell type [cell] ([CZero] is the
      integer 0, [CColor] a colour tuple) and the class [Dims] of the grid
      dimensions.  The source's constants are the instance [py_dims]
      (10 x 20); the theorems are stated for any [Dims], and [dims4] is the
      4 x 4 board of the spec's examples.
    - [Grid]: the playfield as a list of rows (rows are never aliased: the
      code copies them), [grid_get], [row_full], the row pass of
      [clear_lines] ([shift_rows], [clear_rows_from], [clear_rows]) and its
      reference specification [clear_spec].
    - [Piece]: the piece record, [new_piece] (the value [random.choice]
      returned is the argument [choice]), [shape_cells] (the double loop over
      the shape), [blocked] and [valid_move], [rotate], the spec's
      description of the rotation ([transpose], then reverse the rows), and
      the 28 [orientations] of the seven shapes.
    - [Engine]: the object as the record [tetris]; [lock_cells] (the write
      loop), [clear_lines] with [score_delta], [lock_piece], [rotate_piece],
      [update], [init]; every method returns [option tetris] ([None] is a
      Python exception).  [engine_inv] is the invariant of the object.
    - [Loop]: [handle_key] (the [if/elif] chain), [drop_loop] and
      [hard_drop], [handle_event], [handle_events], [frame] (one pass of
      [while running]), [run] and [start] (the whole loop), the step relation
      [step] and the predicate [reachable].
    - [Cells]: the kind of the falling piece ([turns], [piece_kind]: one of
      the seven tetrominoes, in an orientation its rotations give, in the
      colour of its index), the cell-by-cell effect of the lock loop, and
      how many cells are occupied ([row_count], [occupied]).
    - [Liveness]: the predicate [eventually] of a step relation (every run
      reaches a goal), proved from a decreasing measure
      ([eventually_measure]); [landed] (the condition of [update]'s gravity
      branch fails), the gravity step [gravity] (lines 214-216) and the
      frames of an idle player [idle_frame]; [ticks], [n] gravity steps in
      a row.
    - [Render]: [Tetris.draw] (lines 144-174) and the frame's
      [screen.fill(BLACK)] ([display]); the screen is the list of
      [draw_cmd]s issued ([pygame.draw.rect], [screen.blit] of a text,
      [screen.fill]), with [BLACK], [WHITE], [GRAY], [CELL_SIZE],
      [SCREEN_WIDTH] and [SCREEN_HEIGHT].

    ** What the theorems show (claims C1-C29)

    - Row clearing (C1, C2): the forward pass refines [clear_spec] (the
      non-full rows in order under as many empty rows as were cleared) and
      leaves no full row, so the single pass misses none.
    - Locking and scoring (C3, C4, C8, C17, C19): a lock raises no
      exception and re-establishes the invariant; it completes at most 4
      rows and adds the table value; [game_over] is set exactly when the new
      piece collides; the write loop puts the piece's colour exactly on the
      cells of its shape; a piece above the top is not dropped but written
      [GRID_HEIGHT] rows lower (Python's negative indices).  The spec's own
      4 x 4 example is evaluated as [spec_example_clears_two_rows]: it
      scores 300, not 100.
    - The loop (C5, C6, C7, C9, C10, C20, C21): every reachable state
      satisfies the invariant; a frame raises no exception and never lowers
      the score; the hard-drop loop terminates; a game that is over is not
      changed by any frame; each frame is a sequence of steps of [step];
      the whole loop from [Tetris()] never raises.
    - Methods and pieces (C11-C16): [update] keeps the invariant;
      [rotate_piece] keeps it and stores the turned shape exactly when it is
      valid, and otherwise restores the object exactly; [rotate] is the
      counter-clockwise quarter turn (entry [(i, j)] of the result is entry
      [(j, w - 1 - i)]), so four turns are the identity; every shape spawns validly on an
      empty board; [valid_move] rejects any cell outside the walls or below
      the floor; [new_piece] gives a shape its own colour.
    - Rotation and hard drop (C18, C22): the code's comprehension is the
      spec's transpose-then-reverse; the hard drop gives exactly the state of
      a run of gravity ticks (one per row fallen, then the locking one).
    - Cells and pieces (C23, C24): in every reachable state the falling
      piece is a tetromino of [SHAPES] in one of its four orientations and
      in its own colour; a lock adds four occupied cells and a clear of [n]
      rows removes [n * GRID_WIDTH].
    - Liveness (C25, C26): gravity steps always bring the piece to rest,
      after which the next tick locks it; an idle player's frames (any
      [dt > 0]) always reach that point: the timer keeps firing.
    - Rendering (C27-C29): [draw] raises no exception on the invariant and
      draws every rectangle inside the playfield; its filled squares are the
      occupied cells plus the four cells of a running piece; its texts
      determine the score and the game-over flag.

    ** Bounds, fuel and modelling choices

    - The hard-drop [while] loop is [drop_loop] with fuel [drop_fuel p] =
      [GRID_HEIGHT - y + 1]: each iteration moves the piece down one row
      and a piece with a cell cannot move below the floor, so this fuel is
      enough ([drop_loop_terminates]); without a cell the Python loop would
      not stop and no fuel is enough ([drop_loop_no_cells]).
    - The loop passes over rows and cells are structural recursion; no other
      fuel is used.
    - The liveness theorems use measures, not fuel: the rows left below the
      anchor ([fall_measure]) for gravity, and that times [fall_speed + 1]
      plus the time left on the timer ([idle_measure]) for idle frames.
    - The random source is injected: every call that may spawn takes the
      shape [random.choice] returns, and the theorems quantify over all
      shapes of [SHAPES].
    - [fall_time] is a sum of floats [dt / 1000] in the code; the model
      keeps milliseconds as exact integers.
    - Grid reads in [valid_move] use [default CZero]: they are guarded by
      the bounds test and in range on well-formed grids ([grid_get_in]);
      writes ([grid_set], [clear_lines]) model [IndexError] as [None].

    ** Not modelled

    The window set-up ([pygame.init], [set_mode], [set_caption], [Clock])
    and [pygame.quit], pixels, fonts and [display.update] (pure I/O; [draw]
    is modelled down to the pygame calls it makes), and the pygame event
    queue and clock themselves: the events and frame times are inputs of
    [frame] and [run].

    ** Plan for later sittings

    State a game-level abstract specification (the set of occupied cells is
    preserved by moves and changed only by locks) with a refinement of the
    engine, and bound the number of frames an idle player waits for a lock. *)

From stdpp Require Export base list numbers option.
From Stdlib Require Export ZArith Lia.

Open Scope Z_scope.

(** ** Python list semantics *)

(** Python normalises an index [i] into a list of length [len]: a negative
    index counts from the end; anything outside [-len, len) raises
    [IndexError], modelled as [None]. *)
Definition py_norm (len : nat) (i : Z) : option nat :=
  let j := if i <? 0 then i + Z.of_nat len else i in
  if (0 <=? j) && (j <? Z.of_nat len) then Some (Z.to_nat j) else None.

(** [l[i]] *)
Definition py_getitem {A} (l : list A) (i : Z) : option A :=
  j ← py_norm (length l) i; l !! j.

(** [l[i] = v]: the list is updated in place, the update is returned. *)
Definition py_setitem {A} (l : list A) (i : Z) (v : A) : option (list A) :=
  j ← py_norm (length l) i; Some (<[j:=v]> l).

(** [l.index(x)]: the first position of [x]; [ValueError] is [None]. *)
Fixpoint py_index `{EqDecision A} (l : list A) (x : A) : option nat :=
  match l with
  | [] => None
  | y :: l' => if decide (x = y) then Some O else S <$> py_index l' x
  end.

(** [enumerate(l, start)] *)
Fixpoint enumerate_from {A} (i : Z) (l : list A) : list (Z * A) :=
  match l with
  | [] => []
  | x :: l' => (i, x) :: enumerate_from (Z.succ i) l'
  end.

Definition enumerate {A} (l : list A) : list (Z * A) := enumerate_from 0 l.

Declare Scope py_scope.
Delimit Scope py_scope with py.
Notation "l .[ i ]" := (py_getitem l i)
  (at level 1, left associativity, format "l .[ i ]") : py_scope.
Notation "l .[ i := v ]" := (py_setitem l i v)
  (at level 1, left associativity, format "l .[ i := v ]") : py_scope.
Open Scope py_scope.

(** ** Tactics *)

Create HintDb tetris.

(** Close a decidable goal about concrete data by evaluating its decision
    procedure. *)
Ltac eval_decide := apply (bool_decide_unpack _); vm_compute; exact I.

(** ** Generic lemmas *)

Lemma py_norm_in (len : nat) (i : Z) :
  0 <= i < Z.of_nat len -> py_norm len i = Some (Z.to_nat i).
Proof.
  intros Hi. unfold py_norm.
  destruct (Z.ltb_spec i 0); [lia |].
  destruct (Z.leb_spec 0 i), (Z.ltb_spec i (Z.of_nat len)); simpl; done || lia.
Qed.

Lemma py_norm_neg (len : nat) (i : Z) :
  - Z.of_nat len <= i < 0 -> py_norm len i = Some (Z.to_nat (i + Z.of_nat len)).
Proof.
  intros Hi. unfold py_norm.
  destruct (Z.ltb_spec i 0); [| lia].
  destruct (Z.leb_spec 0 (i + Z.of_nat len)),
    (Z.ltb_spec (i + Z.of_nat len) (Z.of_nat len)); simpl; done || lia.
Qed.

Lemma py_norm_out (len : nat) (i : Z) :
  (i < - Z.of_nat len \/ Z.of_nat len <= i) -> py_norm len i = None.
Proof.
  intros Hi. unfold py_norm.
  destruct (Z.ltb_spec i 0);
  [destruct (Z.leb_spec 0 (i + Z.of_nat len)) | destruct (Z.leb_spec 0 i)];
  try destruct (Z.ltb_spec (i + Z.of_nat len) (Z.of_nat len));
  try destruct (Z.ltb_spec i (Z.of_nat len)); simpl; done || lia.
Qed.

Lemma py_norm_lt (len : nat) (i : Z) (j : nat) :
  py_norm len i = Some j -> (j < len)%nat.
Proof.
  unfold py_norm. intros H.
  destruct (Z.ltb_spec i 0);
  [destruct (Z.leb_spec 0 (i + Z.of_nat len)) | destruct (Z.leb_spec 0 i)];
  try destruct (Z.ltb_spec (i + Z.of_nat len) (Z.of_nat len));
  try destruct (Z.ltb_spec i (Z.of_nat len)); simpl in H; simplify_eq; lia.
Qed.

Lemma py_getitem_in {A} (l : list A) (i : Z) :
  0 <= i < Z.of_nat (length l) -> l.[i] = l !! Z.to_nat i.
Proof. intros Hi. unfold py_getitem. by rewrite py_norm_in. Qed.

Lemma py_setitem_in {A} (l : list A) (i : Z) (v : A) :
  0 <= i < Z.of_nat (length l) -> l.[i := v] = Some (<[Z.to_nat i:=v]> l).
Proof. intros Hi. unfold py_setitem. by rewrite py_norm_in. Qed.

(** Turn Python indexing at in-range indices into stdpp lookups and
    updates, leaving the range conditions to [lia]. *)
Ltac py_in_range :=
  repeat first [ rewrite py_getitem_in by lia | rewrite py_setitem_in by lia ].

Lemma py_setitem_length {A} (l l' : list A) (i : Z) (v : A) :
  l.[i := v] = Some l' -> length l' = length l.
Proof.
  unfold py_setitem. intros H.
  destruct (py_norm _ _); simplify_eq/=. apply length_insert.
Qed.

Lemma py_setitem_Some {A} (l l' : list A) (i : Z) (v : A) :
  l.[i := v] = Some l' -> exists j, py_norm (length l) i = Some j /\ l' = <[j:=v]> l.
Proof.
  unfold py_setitem. intros H.
  destruct (py_norm _ _); simplify_eq/=. eauto.
Qed.

(** A negative index in range names the same element as the index
    [len(l)] higher. *)
Lemma py_norm_wrap (len : nat) (i : Z) :
  - Z.of_nat len <= i < 0 -> py_norm len i = py_norm len (i + Z.of_nat len).
Proof. intros Hi. rewrite py_norm_neg, py_norm_in by lia. done. Qed.

Lemma py_getitem_wrap {A} (l : list A) (i : Z) :
  - Z.of_nat (length l) <= i < 0 -> l.[i] = l.[i + Z.of_nat (length l)].
Proof. intros Hi. unfold py_getitem. by rewrite py_norm_wrap. Qed.

Lemma py_setitem_wrap {A} (l : list A) (i : Z) (v : A) :
  - Z.of_nat (length l) <= i < 0 -> l.[i := v] = l.[i + Z.of_nat (length l) := v].
Proof. intros Hi. unfold py_setitem. by rewrite py_norm_wrap. Qed.

Lemma py_getitem_Some {A} (l : list A) (i : Z) (x : A) :
  l.[i] = Some x -> exists j, py_norm (length l) i = Some j /\ l !! j = Some x.
Proof. unfold py_getitem. intros H. destruct (py_norm _ _); simplify_eq/=. eauto. Qed.

(** Python's in-place update keeps every property all elements have. *)
Lemma py_setitem_Forall {A} (P : A -> Prop) (l l' : list A) (i : Z) (v : A) :
  Forall P l -> P v -> l.[i := v] = Some l' -> Forall P l'.
Proof.
  intros Hl Hv (j & _ & ->)%py_setitem_Some. by apply Forall_insert.
Qed.

Lemma py_index_Some `{EqDecision A} (l : list A) (k : nat) (x : A) :
  py_index l x = Some k -> l !! k = Some x.
Proof.
  revert k. induction l as [|y l IH]; intros k H; simpl in H; [done |].
  case_decide; [by simplify_eq/= |].
  destruct (py_index l x) eqn:E; simplify_eq/=. by apply IH.
Qed.

Lemma py_index_lookup `{EqDecision A} (l : list A) (k : nat) (x : A) :
  NoDup l -> l !! k = Some x -> py_index l x = Some k.
Proof.
  revert k. induction l as [|y l IH]; intros k Hnd Hk; [done |].
  inversion_clear Hnd as [|? ? Hy Hl]. destruct k as [|k]; simpl in *.
  - simplify_eq. by rewrite decide_True.
  - rewrite decide_False; [by rewrite (IH k Hl) |].
    intros ->. apply Hy. by eapply list_elem_of_lookup_2.
Qed.

Lemma enumerate_from_lookup {A} (i : Z) (l : list A) (k : nat) :
  enumerate_from i l !! k = (fun x => (i + Z.of_nat k, x)) <$> l !! k.
Proof.
  revert i k. induction l as [|x l IH]; intros i [|k]; simpl; try done.
  - by rewrite Z.add_0_r.
  - rewrite IH. destruct (l !! k); simpl; [| done]. do 2 f_equal. lia.
Qed.

Lemma elem_of_enumerate_from {A} (i j : Z) (l : list A) (x : A) :
  (j, x) ∈ enumerate_from i l <->
  i <= j /\ l !! Z.to_nat (j - i) = Some x.
Proof.
  rewrite list_elem_of_lookup. setoid_rewrite enumerate_from_lookup. split.
  - intros [k Hk]. destruct (l !! k) eqn:E; simplify_eq/=.
    split; [lia |]. by replace (i + Z.of_nat k - i) with (Z.of_nat k) by lia;
      rewrite Nat2Z.id.
  - intros [Hij Hl]. exists (Z.to_nat (j - i)). rewrite Hl. simpl.
    do 2 f_equal. lia.
Qed.

Lemma length_enumerate_from {A} (i : Z) (l : list A) :
  length (enumerate_from i l) = length l.
Proof. revert i. induction l; intros i; simpl; auto. Qed.

Lemma snd_enumerate_from {A} (i : Z) (l : list A) : snd <$> enumerate_from i l = l.
Proof. revert i. induction l; intros i; simpl; f_equal; auto. Qed.

Lemma fmap_flat_map {A B C} (f : B -> C) (g : A -> list B) (l : list A) :
  f <$> flat_map g l = flat_map (fun a => f <$> g a) l.
Proof. induction l as [|a l IH]; simpl; [done |]. by rewrite fmap_app, IH. Qed.

(** [range(n)]. *)
Definition range (n : Z) : list Z := Z.of_nat <$> seq 0 (Z.to_nat n).

(** A loop [for i in range(len(l))] whose body at [i] succeeds with a
    result determined by [l[i]] is a map over [enumerate(l)]. *)
Lemma mapM_range {A B} (f : Z -> option B) (h : Z -> A -> B) (l : list A) :
  (forall (i : nat) x, l !! i = Some x -> f (Z.of_nat i) = Some (h (Z.of_nat i) x)) ->
  mapM f (range (Z.of_nat (length l))) = Some ((fun '(i, x) => h i x) <$> enumerate l).
Proof.
  intros Hf. apply mapM_Some_2, Forall2_same_length_lookup. unfold range, enumerate.
  rewrite Nat2Z.id, !length_fmap, length_seq, length_enumerate_from. split; [done |].
  intros i y z Hy Hz. rewrite list_lookup_fmap, enumerate_from_lookup in Hz.
  destruct (l !! i) eqn:E; simplify_eq/=.
  rewrite list_lookup_fmap, lookup_seq_lt in Hy by (eapply lookup_lt_Some; eauto).
  simplify_eq/=. by apply Hf.
Qed.

(** If [P] holds only at positions of a window of [h] positions, at most [h]
    elements satisfy [P]. *)
Lemma length_filter_window {A} (P : A -> Prop) `{!forall x, Decision (P x)}
    (l : list A) (lo h : nat) :
  (forall i x, l !! i = Some x -> P x -> (lo <= i < lo + h)%nat) ->
  (length (filter P l) <= h)%nat.
Proof.
  revert lo h. induction l as [|x l IH]; intros lo h Hw; simpl; [lia |].
  rewrite filter_cons. destruct lo as [|lo].
  - destruct h as [|h].
    + rewrite decide_False by (intros Hx; specialize (Hw 0%nat x eq_refl Hx); lia).
      apply (IH 0%nat 0%nat). intros i y Hy Py. specialize (Hw (S i) y Hy Py). lia.
    + assert (length (filter P l) <= h)%nat.
      { apply (IH 0%nat). intros i y Hy Py. specialize (Hw (S i) y Hy Py). lia. }
      case_decide; simpl; lia.
  - rewrite decide_False by (intros Hx; specialize (Hw 0%nat x eq_refl Hx); lia).
    apply (IH lo). intros i y Hy Py. specialize (Hw (S i) y Hy Py). lia.
Qed.

(** Floor division by 2 ([x // 2]) as linear bounds for [lia]. *)
Lemma Z_div2_bounds (x : Z) : 2 * (x `div` 2) <= x <= 2 * (x `div` 2) + 1.
Proof.
  pose proof (Z.div_mod x 2 ltac:(lia)). pose proof (Z.mod_pos_bound x 2 ltac:(lia)). lia.
Qed.
