(* ===== verification/Config.v ===== *)
(** * Config: the constants of [src/tetris.py] (lines 7-49)

    Colours, the grid dimensions and the seven tetromino matrices [SHAPES],
    together with the type of grid cells.  The grid dimensions are the class
    [Dims]; its instance [py_dims] is the source's [GRID_WIDTH = 10],
    [GRID_HEIGHT = 20]. *)

From S2P Require Import Prelude.

(** A colour tuple [(r, g, b)]. *)
Definition color : Type := Z * Z * Z.

(** [COLORS], one per shape, in the order of [SHAPES] (lines 11-19). *)
Definition COLORS : list color :=
  [ (0, 255, 255);    (* I *)
    (0, 0, 255);      (* J *)
    (255, 165, 0);    (* L *)
    (255, 255, 0);    (* O *)
    (0, 255, 0);      (* S *)
    (128, 0, 128);    (* T *)
    (255, 0, 0) ].    (* Z *)

(** A cell of [self.grid]: the integer [0] (empty) or a colour tuple.  The
    tuple is always truthy in Python, the [0] never. *)
Inductive cell : Type :=
  | CZero
  | CColor (c : color).

#[export] Instance cell_eq_dec : EqDecision cell.
Proof. solve_decision. Defined.

(** Python truthiness of a cell ([if self.grid[y][x]], [all(row)]). *)
Definition cell_truthy (c : cell) : bool :=
  match c with CZero => false | CColor _ => true end.

(** The grid dimensions [GRID_WIDTH], [GRID_HEIGHT] (lines 23-24).  The
    source fixes them to 10 and 20 ([py_dims]); the model keeps them as a
    class so that the spec's small-board examples are instances too.  Both
    are positive, as the spec's construction-time check requires. *)
Class Dims : Type := {
  GRID_WIDTH : Z;
  GRID_HEIGHT : Z;
  GRID_WIDTH_pos : 0 < GRID_WIDTH;
  GRID_HEIGHT_pos : 0 < GRID_HEIGHT
}.

Definition py_dims : Dims :=
  {| GRID_WIDTH := 10; GRID_HEIGHT := 20;
     GRID_WIDTH_pos := eq_refl; GRID_HEIGHT_pos := eq_refl |}.

(** The 4 x 4 board of the spec's worked examples. *)
Definition dims4 : Dims :=
  {| GRID_WIDTH := 4; GRID_HEIGHT := 4;
     GRID_WIDTH_pos := eq_refl; GRID_HEIGHT_pos := eq_refl |}.

(** A shape matrix: rows of the integers [0] and [1]. *)
Definition shape : Type := list (list Z).

(** Truthiness of a shape entry ([if cell:]). *)
Definition bit_truthy (b : Z) : bool := negb (b =? 0).

(** [SHAPES] (lines 29-49). *)
Definition SHAPES : list shape :=
  [ [[1; 1; 1; 1]];                 (* I *)
    [[1; 0; 0]; [1; 1; 1]];         (* J *)
    [[0; 0; 1]; [1; 1; 1]];         (* L *)
    [[1; 1]; [1; 1]];               (* O *)
    [[0; 1; 1]; [1; 1; 0]];         (* S *)
    [[0; 1; 0]; [1; 1; 1]];         (* T *)
    [[1; 1; 0]; [0; 1; 1]] ].       (* Z *)

Lemma SHAPES_NoDup : NoDup SHAPES.
Proof. apply NoDup_ListNoDup. vm_compute. repeat constructor; simpl; intuition discriminate. Qed.

Lemma length_SHAPES_COLORS : length SHAPES = length COLORS.
Proof. reflexivity. Qed.

#[export] Hint Resolve SHAPES_NoDup GRID_WIDTH_pos GRID_HEIGHT_pos : tetris.
