(* ===== verification/Grid.v ===== *)
(** * Grid: the playfield [self.grid] and the row loop of [clear_lines]

    The grid is a list of rows, row 0 at the top.  Rows are never shared:
    [__init__] builds each row by a comprehension, [clear_lines] copies rows
    ([self.grid[y2-1][:]]) and builds a fresh row 0, so a list of row values
    models the Python list of lists without aliasing.

    [clear_rows] is the first half of [Tetris.clear_lines] (lines 104-112):
    the forward pass over the rows that removes each full row and shifts the
    rows above it down.  [clear_spec] is the reference: keep the rows that are
    not full, in order, and pad with empty rows on top.  The refinement
    theorem [clear_rows_refines] shows that the single forward pass clears
    every full row, including those the shifting moves down. *)

From S2P Require Import Prelude Config.

Abbreviation row := (list cell) (only parsing).
Abbreviation grid := (list row) (only parsing).

Section Grid.
Context {D : Dims}.

(** [[0 for _ in range(GRID_WIDTH)]] *)
Definition empty_row : row := replicate (Z.to_nat GRID_WIDTH) CZero.

(** [[[0 for _ in range(GRID_WIDTH)] for _ in range(GRID_HEIGHT)]] *)
Definition empty_grid : grid := replicate (Z.to_nat GRID_HEIGHT) empty_row.

(** [self.grid[new_y][new_x]] *)
Definition grid_get (g : grid) (x y : Z) : option cell :=
  r ← g.[y]; r.[x].

(** [all(self.grid[y])] *)
Definition row_full (r : row) : bool := forallb cell_truthy r.

(** [for y2 in range(y, 0, -1): self.grid[y2] = self.grid[y2-1][:]] *)
Fixpoint shift_rows (g : grid) (y2 : nat) : option grid :=
  match y2 with
  | O => Some g
  | S k =>
      r ← g.[Z.of_nat k];
      g' ← g.[Z.of_nat (S k) := r];
      shift_rows g' k
  end.

(** [for y in range(GRID_HEIGHT): if all(self.grid[y]): ...], from row [y]
    on, with [n] rows left and [lines] rows cleared so far. *)
Fixpoint clear_rows_from (g : grid) (y n : nat) (lines : Z) : option (grid * Z) :=
  match n with
  | O => Some (g, lines)
  | S n' =>
      r ← g.[Z.of_nat y];
      if row_full r then
        g1 ← shift_rows g y;
        g2 ← g1.[0 := empty_row];
        clear_rows_from g2 (S y) n' (lines + 1)
      else clear_rows_from g (S y) n' lines
  end.

(** Lines 105-112: the grid after the pass and [lines_cleared]. *)
Definition clear_rows (g : grid) : option (grid * Z) :=
  clear_rows_from g 0 (Z.to_nat GRID_HEIGHT) 0.

(** The reference specification of row clearing. *)
Definition kept_rows (g : grid) : grid := filter (fun r => row_full r = false) g.

Definition clear_spec (g : grid) : grid * Z :=
  let k := (length g - length (kept_rows g))%nat in
  (replicate k empty_row ++ kept_rows g, Z.of_nat k).

(** Well-formedness: [GRID_HEIGHT] rows of [GRID_WIDTH] cells. *)
Definition grid_wf (g : grid) : Prop :=
  length g = Z.to_nat GRID_HEIGHT /\
  Forall (fun r => length r = Z.to_nat GRID_WIDTH) g.

(** ** Lemmas *)

Lemma shift_rows_spec (g : grid) (y : nat) :
  (y < length g)%nat ->
  shift_rows g y = Some (take 1 g ++ take y g ++ drop (S y) g).
Proof.
  revert g. induction y as [|k IH]; intros g Hy.
  - simpl. by rewrite take_drop.
  - destruct (lookup_lt_is_Some_2 g k) as [r Hr]; [lia |].
    destruct (lookup_lt_is_Some_2 g (S k)) as [r' Hr']; [lia |].
    simpl. rewrite py_getitem_in by lia. rewrite Nat2Z.id, Hr. simpl.
    rewrite py_setitem_in by lia. rewrite Nat2Z.id. simpl.
    rewrite IH by (rewrite length_insert; lia).
    rewrite !take_insert_ge, drop_insert_ge, Nat.sub_diag by lia.
    rewrite (drop_S g r' (S k) Hr'), (take_S_r g k r Hr).
    by rewrite <- app_assoc.
Qed.

Lemma insert_0_take_1 (g rest : grid) (e : row) :
  g <> [] -> <[O:=e]> (take 1 g ++ rest) = e :: rest.
Proof. by destruct g. Qed.

(** The rows already processed by the pass over [g0] after [y] rows: the
    rows cleared so far as empty rows, then the kept rows in order. *)
Definition cleared_prefix (g0 : grid) (y : nat) : grid :=
  replicate (y - length (kept_rows (take y g0))) empty_row ++ kept_rows (take y g0).

Lemma length_kept_rows_take (g0 : grid) (y : nat) :
  (length (kept_rows (take y g0)) <= y)%nat.
Proof.
  unfold kept_rows. etransitivity; [apply length_filter |].
  rewrite length_take. lia.
Qed.

Lemma length_cleared_prefix (g0 : grid) (y : nat) :
  (y <= length g0)%nat -> length (cleared_prefix g0 y) = y.
Proof.
  intros Hy. unfold cleared_prefix. rewrite length_app, length_replicate.
  pose proof (length_kept_rows_take g0 y). lia.
Qed.

Lemma kept_rows_take_S (g0 : grid) (y : nat) (r : row) :
  g0 !! y = Some r ->
  kept_rows (take (S y) g0) =
    kept_rows (take y g0) ++ (if row_full r then [] else [r]).
Proof.
  intros Hr. unfold kept_rows. rewrite (take_S_r g0 y r Hr). rewrite list.filter_app.
  f_equal. destruct (row_full r) eqn:E.
  - apply filter_singleton_False; [exact [] | congruence].
  - by apply filter_singleton_True.
Qed.

Lemma clear_rows_from_inv (g0 : grid) (n : nat) :
  forall (y : nat) (g : grid) (lines : Z),
  (y + n = length g0)%nat ->
  g = cleared_prefix g0 y ++ drop y g0 ->
  lines = Z.of_nat (y - length (kept_rows (take y g0))) ->
  clear_rows_from g y n lines = Some (clear_spec g0).
Proof.
  induction n as [|n IH]; intros y g lines Hyn -> ->.
  - simpl. unfold cleared_prefix, clear_spec.
    rewrite drop_ge, take_ge, app_nil_r by lia. by rewrite <- Hyn, Nat.add_0_r.
  - pose proof (length_cleared_prefix g0 y ltac:(lia)) as Hlen.
    pose proof (length_kept_rows_take g0 y) as HK.
    destruct (lookup_lt_is_Some_2 g0 y) as [r Hr]; [lia |].
    assert (Hlen' : length (cleared_prefix g0 y ++ drop y g0) = length g0).
    { rewrite length_app, length_drop. lia. }
    simpl. rewrite py_getitem_in by lia. rewrite Nat2Z.id.
    rewrite lookup_app_r, Hlen, Nat.sub_diag, lookup_drop, Nat.add_0_r, Hr by lia.
    simpl. destruct (row_full r) eqn:Hfull.
    + rewrite shift_rows_spec by lia. simpl.
      rewrite py_setitem_in by (rewrite length_app, length_take; lia). simpl.
      rewrite insert_0_take_1 by (intros Hg; rewrite Hg in Hlen'; simpl in Hlen'; lia).
      apply IH; [lia | |].
      * rewrite take_app_length' by done.
        rewrite drop_app_ge, Hlen, drop_drop by lia.
        unfold cleared_prefix. rewrite (kept_rows_take_S g0 y r Hr), Hfull, app_nil_r.
        replace (S y - length (kept_rows (take y g0)))%nat
          with (S (y - length (kept_rows (take y g0)))) by lia.
        simpl. by replace (y + (S y - y))%nat with (S y) by lia.
      * rewrite (kept_rows_take_S g0 y r Hr), Hfull, app_nil_r. lia.
    + apply IH; [lia | |].
      * unfold cleared_prefix. rewrite (kept_rows_take_S g0 y r Hr), Hfull.
        rewrite length_app. simpl.
        replace (S y - (length (kept_rows (take y g0)) + 1))%nat
          with (y - length (kept_rows (take y g0)))%nat by lia.
        rewrite (drop_S g0 r y Hr). by rewrite <- !app_assoc.
      * rewrite (kept_rows_take_S g0 y r Hr), Hfull, length_app. simpl. lia.
Qed.

Lemma row_full_empty_row : row_full empty_row = false.
Proof.
  unfold row_full, empty_row. pose proof GRID_WIDTH_pos.
  destruct (Z.to_nat GRID_WIDTH) eqn:E; [lia | done].
Qed.

Lemma kept_rows_not_full (g : grid) :
  Forall (fun r => row_full r = false) (kept_rows g).
Proof.
  apply Forall_forall. intros r Hr%list_elem_of_In.
  by apply list_elem_of_filter in Hr as [? _].
Qed.

Lemma length_clear_spec (g : grid) : length (clear_spec g).1 = length g.
Proof.
  unfold clear_spec; simpl. rewrite length_app, length_replicate.
  pose proof (length_filter (fun r => row_full r = false) g). unfold kept_rows. lia.
Qed.

(** On a well-formed grid a read inside the bounds raises no [IndexError]. *)
Lemma grid_get_in (g : grid) (x y : Z) :
  grid_wf g -> 0 <= x < GRID_WIDTH -> 0 <= y < GRID_HEIGHT ->
  exists c, grid_get g x y = Some c.
Proof.
  intros [Hlen Hrows] Hx Hy. unfold grid_get.
  destruct (lookup_lt_is_Some_2 g (Z.to_nat y)) as [r Hr]; [lia |].
  pose proof (Forall_lookup_1 _ _ _ _ Hrows Hr) as Hw; cbn in Hw.
  destruct (lookup_lt_is_Some_2 r (Z.to_nat x)) as [c Hc]; [lia |].
  exists c. py_in_range. rewrite Hr. simpl. py_in_range. done.
Qed.

Lemma empty_grid_wf : grid_wf empty_grid.
Proof.
  unfold empty_grid, empty_row. split; [by rewrite length_replicate |].
  apply Forall_replicate. by rewrite length_replicate.
Qed.

Lemma grid_get_empty (x y : Z) :
  0 <= x < GRID_WIDTH -> 0 <= y < GRID_HEIGHT -> grid_get empty_grid x y = Some CZero.
Proof.
  intros Hx Hy. unfold grid_get, empty_grid, empty_row.
  rewrite py_getitem_in by (rewrite length_replicate; lia).
  rewrite lookup_replicate_2 by lia. simpl.
  rewrite py_getitem_in by (rewrite length_replicate; lia).
  apply lookup_replicate_2. lia.
Qed.

(** ** Properties of [clear_lines]' row pass *)

Lemma clear_rows_eq_spec (g : grid) :
  length g = Z.to_nat GRID_HEIGHT -> clear_rows g = Some (clear_spec g).
Proof.
  intros Hg. unfold clear_rows. apply clear_rows_from_inv; [lia | done | done].
Qed.

(** C1 (refinement): on a grid of [GRID_HEIGHT] rows the forward pass of
    [clear_lines] raises no [IndexError] and computes the reference result:
    the rows that are not full, in their original order, under as many empty
    rows as there were full rows, and [lines_cleared] is that number. *)
Theorem clear_rows_refines (g : grid) :
  length g = Z.to_nat GRID_HEIGHT -> clear_rows g = Some (clear_spec g).
Proof. intros; by eapply clear_rows_eq_spec. Qed.

Lemma clear_rows_not_full (g g' : grid) (lines : Z) :
  length g = Z.to_nat GRID_HEIGHT ->
  clear_rows g = Some (g', lines) ->
  Forall (fun r => row_full r = false) g'.
Proof.
  intros Hg Hc. rewrite clear_rows_eq_spec in Hc by done.
  unfold clear_spec in Hc. simplify_eq/=.
  apply Forall_app; split; [apply Forall_replicate, row_full_empty_row | apply kept_rows_not_full].
Qed.

(** C2 (safety): after the pass no row of the grid is full, even when the
    shifting moves rows down past the loop index: the single forward pass
    misses no full row. *)
Theorem clear_rows_no_full_row (g g' : grid) (lines : Z) :
  length g = Z.to_nat GRID_HEIGHT ->
  clear_rows g = Some (g', lines) ->
  Forall (fun r => row_full r = false) g'.
Proof. intros; by eapply clear_rows_not_full. Qed.

(** The number of full rows of a grid. *)
Definition full_rows (g : grid) : nat := length (filter (fun r => row_full r = true) g).

Lemma length_kept_rows (g : grid) :
  (length (kept_rows g) + full_rows g = length g)%nat.
Proof.
  unfold kept_rows, full_rows. induction g as [|r g IH]; [done |].
  rewrite !filter_cons. destruct (row_full r); simpl; repeat case_decide; simpl;
    try congruence; lia.
Qed.

Lemma Forall_kept_rows (P : row -> Prop) (g : grid) :
  Forall P g -> Forall P (kept_rows g).
Proof.
  rewrite !Forall_forall. intros HP r Hr%list_elem_of_In.
  apply list_elem_of_filter in Hr as [_ Hr%list_elem_of_In]. auto.
Qed.

(** The pass keeps the grid well formed and counts exactly the full rows. *)
Lemma clear_rows_wf (g g' : grid) (lines : Z) :
  grid_wf g -> clear_rows g = Some (g', lines) ->
  grid_wf g' /\ lines = Z.of_nat (full_rows g).
Proof.
  intros [Hlen Hrows] Hc. rewrite clear_rows_eq_spec in Hc by done.
  unfold clear_spec in Hc. simplify_eq/=. pose proof (length_kept_rows g).
  split; [split |].
  - rewrite length_app, length_replicate. lia.
  - apply Forall_app; split.
    + apply Forall_replicate. unfold empty_row. by rewrite length_replicate.
    + by apply Forall_kept_rows.
  - f_equal. lia.
Qed.

(** The reference result is well formed and has no full row. *)
Lemma clear_spec_ok (g : grid) :
  grid_wf g ->
  grid_wf (clear_spec g).1 /\ Forall (fun r => row_full r = false) (clear_spec g).1 /\
  (clear_spec g).2 = Z.of_nat (full_rows g).
Proof.
  intros Hwf. pose proof (clear_rows_eq_spec g (proj1 Hwf)) as Hc.
  destruct (clear_spec g) as [g' lines] eqn:E.
  destruct (clear_rows_wf g g' lines Hwf Hc) as [? ?].
  split_and!; [done | | done]. eapply clear_rows_not_full; [apply Hwf | exact Hc].
Qed.

#[global] Instance grid_wf_dec (g : grid) : Decision (grid_wf g).
Proof. unfold grid_wf. apply _. Defined.

End Grid.

#[export] Hint Resolve row_full_empty_row kept_rows_not_full Forall_kept_rows : tetris.

(** A 4 x 4 board whose two bottom rows are full, with a partial row between
    them and an empty top row. *)
Definition grid4_example : grid :=
  let f := CColor (255, 0, 0) in
  [[CZero; CZero; CZero; CZero]; [f; f; f; f]; [f; CZero; f; CZero]; [f; f; f; f]].

Lemma clear_rows_refines_witness :
  length grid4_example = Z.to_nat (@GRID_HEIGHT dims4) /\
  @clear_rows dims4 grid4_example = Some (@clear_spec dims4 grid4_example).
Proof. split; [reflexivity | apply (@clear_rows_refines dims4); reflexivity]. Defined.

Lemma clear_rows_no_full_row_witness :
  length grid4_example = Z.to_nat (@GRID_HEIGHT dims4) /\
  @clear_rows dims4 grid4_example =
    Some (fst (@clear_spec dims4 grid4_example), 2) /\
  Forall (fun r => row_full r = false) (fst (@clear_spec dims4 grid4_example)).
Proof.
  split; [reflexivity | split; [vm_compute; reflexivity |]].
  apply (@clear_rows_no_full_row dims4 grid4_example _ 2); vm_compute; reflexivity.
Defined.
