(* ===== verification/Piece.v ===== *)
(** * Piece: the falling piece, its spawn, rotation and collision test

    A piece is the dict [{"shape", "color", "x", "y"}] built by
    [Tetris.new_piece] (lines 64-73).  This file models
    - [new_piece], with the result of [random.choice(SHAPES)] passed in as
      the argument [choice] (the random source is injected);
    - [shape_cells], the double loop [for y, row in enumerate(shape): for x,
      cell in enumerate(row): if cell:] shared by [valid_move] and
      [lock_piece];
    - [valid_move] (lines 75-86);
    - [rotate], the list comprehension of [rotate_piece] (lines 126-128),
      with the theorem that four rotations give the shape back and the
      finite set [orientations] of every shape the game can produce. *)

From S2P Require Import Prelude Config Grid.

(** The piece dict. *)
Record piece : Type := mkPiece {
  pshape : shape;     (* piece["shape"] *)
  pcolor : color;     (* piece["color"] *)
  px : Z;             (* piece["x"] *)
  py : Z              (* piece["y"] *)
}.

#[export] Instance piece_eq_dec : EqDecision piece.
Proof. solve_decision. Defined.

(** ** Shape matrices *)

(** [shape[x][y]] for in-range indices. *)
Definition mget (s : shape) (i j : nat) : Z := nth j (nth i s []) 0.

(** [len(shape[0])] *)
Definition width (s : shape) : nat := length (nth 0 s []).

(** [[[shape[x][y] for x in range(len(shape))]
      for y in range(len(shape[0])-1, -1, -1)]]; the indices are in range
    on rectangular shapes, which every orientation is ([orientations_facts]). *)
Definition rotate (s : shape) : shape :=
  map (fun y => map (fun x => mget s x y) (seq 0 (length s)))
      (rev (seq 0 (width s))).

(** A rectangular matrix of [h] rows of [w] entries, not empty. *)
Definition shape_rect (s : shape) (h w : nat) : Prop :=
  length s = h /\ Forall (fun r => length r = w) s /\ (0 < h)%nat /\ (0 < w)%nat.

(** The local coordinates [(x, y)] of the truthy entries, in the order of the
    double loop of [valid_move] and [lock_piece]. *)
Definition shape_cells (s : shape) : list (Z * Z) :=
  flat_map (fun '(y, row) =>
    flat_map (fun '(x, c) => if bit_truthy c then [(x, y)] else []) (enumerate row))
    (enumerate s).

Section Piece.
Context {D : Dims}.

(** [new_piece] (lines 64-73).  [choice] is what [random.choice(SHAPES)]
    returned; [SHAPES.index] and the indexing raise on a shape that is not
    one of [SHAPES] ([None]). *)
Definition new_piece (choice : shape) : option piece :=
  i ← py_index SHAPES choice;
  color ← COLORS.[Z.of_nat i];
  row0 ← choice.[0];
  let x := GRID_WIDTH `div` 2 - Z.of_nat (length row0) `div` 2 in
  Some {| pshape := choice; pcolor := color; px := x; py := 0 |}.

(** The condition of line 82-84 for the target cell [(new_x, new_y)]. *)
Definition blocked (g : grid) (new_x new_y : Z) : bool :=
  (new_x <? 0) || (GRID_WIDTH <=? new_x) || (GRID_HEIGHT <=? new_y) ||
  ((0 <=? new_y) && cell_truthy (default CZero (grid_get g new_x new_y))).

(** [valid_move(piece, x_offset, y_offset)] (lines 75-86). *)
Definition valid_move (g : grid) (p : piece) (x_offset y_offset : Z) : bool :=
  forallb (fun '(x, y) =>
    negb (blocked g (px p + x + x_offset) (py p + y + y_offset)))
    (shape_cells (pshape p)).

End Piece.

(** ** Lemmas on matrices *)

Lemma nth_map_lt {A B} (f : A -> B) (l : list A) (i : nat) (d : B) (d' : A) :
  (i < length l)%nat -> nth i (map f l) d = f (nth i l d').
Proof. intros Hi. rewrite (nth_indep _ d (f d')) by (rewrite length_map; lia). apply map_nth. Qed.

Lemma length_rotate (s : shape) : length (rotate s) = width s.
Proof. unfold rotate. by rewrite length_map, length_rev, length_seq. Qed.

Lemma nth_rotate (s : shape) (i : nat) :
  (i < width s)%nat ->
  nth i (rotate s) [] = map (fun x => mget s x (width s - 1 - i)) (seq 0 (length s)).
Proof.
  intros Hi. unfold rotate. rewrite (nth_map_lt _ _ _ _ O) by (rewrite length_rev, length_seq; lia).
  rewrite rev_nth by (rewrite length_seq; lia). rewrite length_seq, seq_nth by lia.
  by replace (0 + (width s - S i))%nat with (width s - 1 - i)%nat by lia.
Qed.

Lemma shape_rect_width (s : shape) (h w : nat) : shape_rect s h w -> width s = w.
Proof.
  intros (Hh & Hrows & Hh0 & Hw0). unfold width.
  destruct s as [|r s]; simpl in *; [lia |]. by inversion Hrows.
Qed.

Lemma shape_rect_nth (s : shape) (h w i : nat) :
  shape_rect s h w -> (i < h)%nat -> length (nth i s []) = w.
Proof.
  intros (Hh & Hrows & _) Hi. rewrite Forall_forall in Hrows.
  apply Hrows, nth_In. lia.
Qed.

Lemma rotate_rect (s : shape) (h w : nat) :
  shape_rect s h w -> shape_rect (rotate s) w h.
Proof.
  intros Hs. pose proof (shape_rect_width _ _ _ Hs) as Hw.
  destruct Hs as (Hh & Hrows & Hh0 & Hw0).
  split; [by rewrite length_rotate | split; [| lia]].
  unfold rotate. apply Forall_map, Forall_forall. intros y _.
  by rewrite length_map, length_seq.
Qed.

Lemma mget_rotate (s : shape) (h w i j : nat) :
  shape_rect s h w -> (i < w)%nat -> (j < h)%nat ->
  mget (rotate s) i j = mget s j (w - 1 - i).
Proof.
  intros Hs Hi Hj. pose proof (shape_rect_width _ _ _ Hs) as Hw.
  destruct Hs as (Hh & _).
  unfold mget at 1. rewrite nth_rotate by lia.
  rewrite (nth_map_lt _ _ _ _ O) by (rewrite length_seq; lia).
  rewrite seq_nth by lia. by rewrite Hw.
Qed.

(** Two rectangular matrices of the same size with the same entries are
    equal. *)
Lemma mat_ext (a b : shape) (h w : nat) :
  shape_rect a h w -> shape_rect b h w ->
  (forall i j, (i < h)%nat -> (j < w)%nat -> mget a i j = mget b i j) -> a = b.
Proof.
  intros Ha Hb Hab. apply (nth_ext _ _ [] []).
  - destruct Ha as [-> _], Hb as [-> _]. done.
  - intros i Hi. pose proof Ha as [Hla _].
    apply (nth_ext _ _ 0 0).
    + rewrite (shape_rect_nth a h w), (shape_rect_nth b h w); auto; lia.
    + intros j Hj. rewrite (shape_rect_nth a h w) in Hj by (auto; lia).
      apply Hab; lia.
Qed.

Lemma shape_rect_rotate_iter (s : shape) (h w : nat) :
  shape_rect s h w ->
  shape_rect (rotate s) w h /\ shape_rect (rotate (rotate s)) h w /\
  shape_rect (rotate (rotate (rotate s))) w h.
Proof.
  intros Hs. pose proof (rotate_rect _ _ _ Hs) as H1.
  pose proof (rotate_rect _ _ _ H1) as H2. auto using rotate_rect.
Qed.

Lemma rotate_four_id (s : shape) (h w : nat) :
  shape_rect s h w -> rotate (rotate (rotate (rotate s))) = s.
Proof.
  intros Hs. destruct (shape_rect_rotate_iter _ _ _ Hs) as (H1 & H2 & H3).
  apply (mat_ext _ _ h w (rotate_rect _ _ _ H3) Hs). intros i j Hi Hj.
  rewrite (mget_rotate _ w h), (mget_rotate _ h w), (mget_rotate _ w h),
    (mget_rotate _ h w) by (auto; lia).
  f_equal; lia.
Qed.

(** C13 (roundtrip, functional): on a rectangular [h x w] shape, [rotate]
    is the counter-clockwise quarter turn: the result is [w x h], its entry
    in row [i], column [j] is the input's entry in row [j], column
    [w - 1 - i] (its first row is the input's last column, read top to
    bottom), and four turns give the shape back. *)
Theorem rotate_quarter_turn (s : shape) (h w : nat) :
  shape_rect s h w ->
  shape_rect (rotate s) w h /\
  (forall i j, (i < w)%nat -> (j < h)%nat -> mget (rotate s) i j = mget s j (w - 1 - i)) /\
  rotate (rotate (rotate (rotate s))) = s.
Proof.
  intros Hs. split_and!; [by apply rotate_rect | intros; by eapply mget_rotate |].
  by apply (rotate_four_id _ h w).
Qed.

Lemma rotate_quarter_turn_witness :
  shape_rect [[0; 1; 0]; [1; 1; 1]] 2 3 /\
  shape_rect (rotate [[0; 1; 0]; [1; 1; 1]]) 3 2 /\
  (forall i j, (i < 3)%nat -> (j < 2)%nat ->
     mget (rotate [[0; 1; 0]; [1; 1; 1]]) i j = mget [[0; 1; 0]; [1; 1; 1]] j (3 - 1 - i)) /\
  rotate (rotate (rotate (rotate [[0; 1; 0]; [1; 1; 1]]))) = [[0; 1; 0]; [1; 1; 1]].
Proof.
  assert (H : shape_rect [[0; 1; 0]; [1; 1; 1]] 2 3).
  { split; [reflexivity | split; [repeat constructor | lia]]. }
  split; [exact H | exact (rotate_quarter_turn _ 2 3 H)].
Defined.

(** The spec's description of the rotation: transpose the matrix, then
    reverse the order of its rows. *)
Definition transpose (s : shape) : shape :=
  map (fun j => map (fun row => nth j row 0) s) (seq 0 (width s)).

Lemma map_seq_nth {A B} (f : A -> B) (l : list A) (d : A) :
  map (fun i => f (nth i l d)) (seq 0 (length l)) = map f l.
Proof.
  apply (nth_ext _ _ (f d) (f d)); [by rewrite !length_map, length_seq |].
  intros i Hi. rewrite length_map, length_seq in Hi.
  rewrite (nth_map_lt _ _ _ _ O), seq_nth by (rewrite ?length_seq; lia).
  by rewrite (nth_map_lt _ _ _ _ d).
Qed.

(** C22 (equivalence): the comprehension of [rotate_piece] is the spec's
    rotation, the transposed matrix with its rows in reverse order, on
    every matrix (rectangular or not). *)
Theorem rotate_transpose (s : shape) : rotate s = rev (transpose s).
Proof.
  unfold rotate, transpose, mget. rewrite <- map_rev. apply map_ext. intros y.
  by rewrite (map_seq_nth (fun row => nth y row 0) s []).
Qed.

(** Every shape the game can hold: the seven [SHAPES] and their rotations. *)
Definition orientations : list shape :=
  flat_map (fun s => [s; rotate s; rotate (rotate s); rotate (rotate (rotate s))])
    SHAPES.

#[export] Instance shape_rect_dec (s : shape) (h w : nat) : Decision (shape_rect s h w).
Proof. unfold shape_rect. apply _. Defined.

(** Facts about the finitely many orientations, checked by evaluation. *)
Lemma orientations_facts :
  Forall (fun s => shape_rect s (length s) (width s) /\ (length s <= 4)%nat /\
    (width s <= 4)%nat /\ rotate s ∈ orientations) orientations.
Proof. eval_decide. Qed.

Lemma orientations_cells :
  Forall (fun s => length (shape_cells s) = 4%nat) orientations.
Proof. eval_decide. Qed.

Lemma orientations_nodup : Forall (fun s => NoDup (shape_cells s)) orientations.
Proof. eval_decide. Qed.

(** Each orientation has four distinct cells. *)
Lemma orientation_cells (s : shape) :
  s ∈ orientations -> length (shape_cells s) = 4%nat /\ NoDup (shape_cells s).
Proof.
  intros Hs%list_elem_of_In. pose proof orientations_cells as F1.
  pose proof orientations_nodup as F2. rewrite Forall_forall in F1, F2. auto.
Qed.

Lemma orientation_cells_nonempty (s : shape) : s ∈ orientations -> shape_cells s <> [].
Proof.
  intros Hs%list_elem_of_In. pose proof orientations_cells as F.
  rewrite Forall_forall in F. specialize (F s Hs). by intros E; rewrite E in F.
Qed.

Lemma SHAPES_facts :
  Forall (fun s => s ∈ orientations /\ (length s <= 2)%nat /\ (2 <= width s)%nat) SHAPES.
Proof. eval_decide. Qed.

Lemma orientation_rect (s : shape) :
  s ∈ orientations -> shape_rect s (length s) (width s) /\ (length s <= 4)%nat /\ (width s <= 4)%nat.
Proof.
  intros Hs%list_elem_of_In. pose proof orientations_facts as F.
  rewrite Forall_forall in F. destruct (F s Hs) as (? & ? & ? & _). auto.
Qed.

Lemma orientation_rotate (s : shape) : s ∈ orientations -> rotate s ∈ orientations.
Proof.
  intros Hs%list_elem_of_In. pose proof orientations_facts as F.
  rewrite Forall_forall in F. apply F, Hs.
Qed.

Lemma SHAPES_in_orientations (s : shape) : s ∈ SHAPES -> s ∈ orientations.
Proof.
  intros Hs%list_elem_of_In. pose proof SHAPES_facts as F.
  rewrite Forall_forall in F. apply F, Hs.
Qed.

#[export] Hint Resolve orientation_rotate SHAPES_in_orientations : tetris.

(** ** Cells of a shape *)

Lemma in_shape_cells (s : shape) (x y : Z) :
  In (x, y) (shape_cells s) <->
  0 <= x /\ 0 <= y /\ exists row c, s !! Z.to_nat y = Some row /\
    row !! Z.to_nat x = Some c /\ bit_truthy c = true.
Proof.
  unfold shape_cells. rewrite in_flat_map. split.
  - intros [[y' row] [Hrow Hin]]. apply in_flat_map in Hin as [[x' c] [Hc Hin]].
    apply list_elem_of_In, elem_of_enumerate_from in Hrow.
    apply list_elem_of_In, elem_of_enumerate_from in Hc.
    rewrite !Z.sub_0_r in Hrow, Hc.
    destruct (bit_truthy c) eqn:E; simpl in Hin; [| done].
    destruct Hin as [[= -> ->] | []]. naive_solver.
  - intros (Hx & Hy & row & c & Hrow & Hc & E). exists (y, row). split.
    + apply list_elem_of_In, elem_of_enumerate_from. rewrite Z.sub_0_r. done.
    + apply in_flat_map. exists (x, c). split; [| by rewrite E; left].
      apply list_elem_of_In, elem_of_enumerate_from. rewrite Z.sub_0_r. done.
Qed.

Lemma shape_cells_bound (s : shape) (h w : nat) (x y : Z) :
  shape_rect s h w -> In (x, y) (shape_cells s) ->
  0 <= x < Z.of_nat w /\ 0 <= y < Z.of_nat h.
Proof.
  intros (Hh & Hrows & _) (Hx & Hy & row & c & Hrow & Hc & _)%in_shape_cells.
  pose proof (Forall_lookup_1 _ _ _ _ Hrows Hrow) as Hw; cbn in Hw.
  apply lookup_lt_Some in Hrow, Hc. lia.
Qed.

(** ** The collision test *)

Section Valid.
Context {D : Dims}.

Lemma valid_move_spec (g : grid) (p : piece) (dx dy : Z) :
  valid_move g p dx dy = true <->
  forall x y, In (x, y) (shape_cells (pshape p)) ->
    blocked g (px p + x + dx) (py p + y + dy) = false.
Proof.
  unfold valid_move. rewrite forallb_forall. split.
  - intros H x y Hin. apply negb_true_iff. exact (H (x, y) Hin).
  - intros H [x y] Hin. apply negb_true_iff. auto.
Qed.

Lemma blocked_false (g : grid) (nx ny : Z) :
  blocked g nx ny = false <->
  0 <= nx < GRID_WIDTH /\ ny < GRID_HEIGHT /\
  (0 <= ny -> cell_truthy (default CZero (grid_get g nx ny)) = false).
Proof.
  unfold blocked. rewrite !orb_false_iff, Z.ltb_ge, !Z.leb_gt, andb_false_iff, Z.leb_gt.
  split.
  - intros [[[Hx Hw] Hh] Hc]. split; [lia | split; [lia |]].
    intros Hy. destruct Hc; [lia | done].
  - intros [Hx [Hh Hc]]. split; [lia |].
    destruct (Z.ltb_spec ny 0); [left; lia | right; apply Hc; lia].
Qed.

Lemma new_piece_spec (choice : shape) :
  choice ∈ SHAPES -> exists c,
  new_piece choice =
    Some (mkPiece choice c (GRID_WIDTH `div` 2 - Z.of_nat (width choice) `div` 2) 0).
Proof.
  intros H. repeat (apply elem_of_cons in H as [-> | H]; [eexists; reflexivity |]).
  by apply not_elem_of_nil in H.
Qed.

Lemma new_piece_valid_empty (choice : shape) :
  4 <= GRID_WIDTH -> 2 <= GRID_HEIGHT -> choice ∈ SHAPES ->
  exists p, new_piece choice = Some p /\ valid_move empty_grid p 0 0 = true.
Proof.
  intros HW HH Hc. destruct (new_piece_spec choice Hc) as [c ->].
  eexists; split; [done |].
  pose proof SHAPES_facts as F. rewrite Forall_forall in F.
  destruct (F choice) as (Ho & Hh & Hw); [by apply list_elem_of_In |].
  destruct (orientation_rect choice Ho) as (Hr & _ & Hw4).
  apply valid_move_spec. intros x y Hin. simpl.
  destruct (shape_cells_bound _ _ _ _ _ Hr Hin) as [Hx Hy].
  assert (Hbx : 0 <= GRID_WIDTH `div` 2 - Z.of_nat (width choice) `div` 2 + x + 0 < GRID_WIDTH).
  { pose proof (Z_div2_bounds GRID_WIDTH).
    pose proof (Z_div2_bounds (Z.of_nat (width choice))). lia. }
  apply blocked_false. split; [done | split; [lia |]].
  intros Hy0. rewrite grid_get_empty by lia. done.
Qed.

(** C14 (safety): on an empty board at least 4 wide and 2 high, each of the
    seven shapes spawns at a valid position, so the game does not start
    over (the source's 10 x 20 board is such a board). *)
Theorem spawn_valid_empty (choice : shape) :
  4 <= GRID_WIDTH -> 2 <= GRID_HEIGHT -> choice ∈ SHAPES ->
  exists p, new_piece choice = Some p /\ valid_move empty_grid p 0 0 = true.
Proof. intros; by eapply new_piece_valid_empty. Qed.

(** C15 (safety): [valid_move] rejects any move that puts a cell of the
    piece left of the grid, right of it or below the floor, whatever the
    grid holds. *)
Theorem valid_move_out_of_bounds (g : grid) (p : piece) (dx dy x y : Z) :
  In (x, y) (shape_cells (pshape p)) ->
  (px p + x + dx < 0 \/ GRID_WIDTH <= px p + x + dx \/ GRID_HEIGHT <= py p + y + dy) ->
  valid_move g p dx dy = false.
Proof.
  intros Hin Hout. apply not_true_iff_false. rewrite valid_move_spec.
  intros Hv. specialize (Hv x y Hin). apply blocked_false in Hv. lia.
Qed.

(** C16 (functional): [new_piece] gives the shape drawn its own colour: the
    colour at the shape's position in [SHAPES] ([SHAPES.index] finds it
    since the seven shapes are distinct), at [x = GRID_WIDTH // 2 -
    len(shape[0]) // 2], [y = 0]. *)
Theorem new_piece_color (i : nat) (s : shape) (c : color) :
  SHAPES !! i = Some s -> COLORS !! i = Some c ->
  new_piece s = Some (mkPiece s c (GRID_WIDTH `div` 2 - Z.of_nat (width s) `div` 2) 0).
Proof.
  intros Hs Hc. unfold new_piece.
  rewrite (py_index_lookup SHAPES i s SHAPES_NoDup Hs). simpl.
  assert (Hi : (i < 7)%nat) by (apply lookup_lt_Some in Hc; exact Hc).
  rewrite (py_getitem_in COLORS) by (simpl; lia).
  rewrite Nat2Z.id, Hc. simpl.
  assert (Hr : s ∈ orientations) by (apply SHAPES_in_orientations; by eapply list_elem_of_lookup_2).
  destruct (orientation_rect s Hr) as ((Hh & _ & Hh0 & _) & _).
  unfold width. destruct s as [|row s']; simpl in *; [lia |].
  done.
Qed.

End Valid.

Lemma valid_move_out_of_bounds_witness :
  (In (3, 0) (shape_cells [[1; 1; 1; 1]]) /\
   (8 + 3 + 0 < 0 \/ @GRID_WIDTH py_dims <= 8 + 3 + 0 \/ @GRID_HEIGHT py_dims <= 0 + 0 + 0)) /\
  @valid_move py_dims (@empty_grid py_dims) (mkPiece [[1; 1; 1; 1]] (0, 255, 255) 8 0) 0 0 = false.
Proof.
  assert (H1 : In (3, 0) (shape_cells [[1; 1; 1; 1]])) by (vm_compute; tauto).
  assert (H2 : 8 + 3 + 0 < 0 \/ @GRID_WIDTH py_dims <= 8 + 3 + 0 \/ @GRID_HEIGHT py_dims <= 0 + 0 + 0).
  { vm_compute. right; left; discriminate. }
  split; [split; [exact H1 | exact H2] |].
  exact (@valid_move_out_of_bounds py_dims _ (mkPiece [[1; 1; 1; 1]] (0, 255, 255) 8 0) 0 0 3 0 H1 H2).
Defined.

Lemma new_piece_color_witness :
  (SHAPES !! 5%nat = Some [[0; 1; 0]; [1; 1; 1]] /\ COLORS !! 5%nat = Some (128, 0, 128)) /\
  @new_piece py_dims [[0; 1; 0]; [1; 1; 1]] =
    Some (mkPiece [[0; 1; 0]; [1; 1; 1]] (128, 0, 128)
      (@GRID_WIDTH py_dims `div` 2 - Z.of_nat (width [[0; 1; 0]; [1; 1; 1]]) `div` 2) 0).
Proof.
  assert (H1 : SHAPES !! 5%nat = Some [[0; 1; 0]; [1; 1; 1]]) by reflexivity.
  assert (H2 : COLORS !! 5%nat = Some (128, 0, 128)) by reflexivity.
  split; [split; [exact H1 | exact H2] | exact (@new_piece_color py_dims 5 _ _ H1 H2)].
Defined.

Lemma spawn_valid_empty_witness :
  (4 <= @GRID_WIDTH py_dims /\ 2 <= @GRID_HEIGHT py_dims /\ [[0; 1; 0]; [1; 1; 1]] ∈ SHAPES) /\
  exists p, @new_piece py_dims [[0; 1; 0]; [1; 1; 1]] = Some p /\
    @valid_move py_dims (@empty_grid py_dims) p 0 0 = true.
Proof.
  assert (H : 4 <= @GRID_WIDTH py_dims /\ 2 <= @GRID_HEIGHT py_dims /\
              [[0; 1; 0]; [1; 1; 1]] ∈ SHAPES).
  { split; [simpl; lia | split; [simpl; lia | eval_decide]]. }
  split; [exact H |].
  destruct H as (H1 & H2 & H3). exact (@spawn_valid_empty py_dims _ H1 H2 H3).
Defined.
