(* ===== verification/Engine.v ===== *)
(** * Engine: the [Tetris] object and its methods (lines 57-142)

    The object's attributes [grid], [current_piece], [game_over] and [score]
    form the record [tetris].  Each method is a function from the object to
    the object after the call, in [option]: [None] is a Python exception
    ([IndexError], [ValueError]).  The methods that call [new_piece] take
    the result of [random.choice(SHAPES)] as the argument [choice].

    - [lock_cells]: the write loop of [lock_piece] (lines 89-92);
    - [clear_lines]: the row pass of [Grid.clear_rows] and the score table
      [score_delta] (lines 104-122);
    - [lock_piece] (lines 88-102), [rotate_piece] (lines 124-135),
      [update] (lines 137-142), [init] ([__init__], lines 58-62). *)

From S2P Require Import Prelude Config Grid Piece.

Record tetris : Type := mkTetris {
  t_grid : grid;              (* self.grid *)
  current_piece : piece;      (* self.current_piece *)
  game_over : bool;           (* self.game_over *)
  score : Z                   (* self.score *)
}.

Definition set_grid (st : tetris) (g : grid) : tetris :=
  mkTetris g (current_piece st) (game_over st) (score st).
Definition set_piece (st : tetris) (p : piece) : tetris :=
  mkTetris (t_grid st) p (game_over st) (score st).
Definition set_game_over (st : tetris) (b : bool) : tetris :=
  mkTetris (t_grid st) (current_piece st) b (score st).
Definition set_score (st : tetris) (s : Z) : tetris :=
  mkTetris (t_grid st) (current_piece st) (game_over st) s.

(** [piece["x"] += dx; piece["y"] += dy] *)
Definition shift_piece (p : piece) (dx dy : Z) : piece :=
  mkPiece (pshape p) (pcolor p) (px p + dx) (py p + dy).

(** [piece["shape"] = s] *)
Definition set_shape (p : piece) (s : shape) : piece :=
  mkPiece s (pcolor p) (px p) (py p).

(** [self.grid[y][x] = c]: the row is fetched, then updated in place. *)
Definition grid_set (g : grid) (x y : Z) (c : cell) : option grid :=
  r ← g.[y];
  r' ← r.[x := c];
  g.[y := r'].

(** [for y, row in enumerate(piece["shape"]): for x, cell in enumerate(row):
      if cell: self.grid[piece["y"] + y][piece["x"] + x] = piece["color"]] *)
Fixpoint lock_cells_from (g : grid) (p : piece) (cells : list (Z * Z)) : option grid :=
  match cells with
  | [] => Some g
  | (x, y) :: cells' =>
      g' ← grid_set g (px p + x) (py p + y) (CColor (pcolor p));
      lock_cells_from g' p cells'
  end.

Definition lock_cells (g : grid) (p : piece) : option grid :=
  lock_cells_from g p (shape_cells (pshape p)).

(** The score table of lines 115-122. *)
Definition score_delta (lines_cleared : Z) : Z :=
  if lines_cleared =? 1 then 100
  else if lines_cleared =? 2 then 300
  else if lines_cleared =? 3 then 500
  else if lines_cleared =? 4 then 800
  else 0.

Section Engine.
Context {D : Dims}.

(** [clear_lines] (lines 104-122). *)
Definition clear_lines (st : tetris) : option tetris :=
  '(g, lines_cleared) ← clear_rows (t_grid st);
  Some (set_score (set_grid st g) (score st + score_delta lines_cleared)).

(** [lock_piece(piece)] (lines 88-102). *)
Definition lock_piece (st : tetris) (p : piece) (choice : shape) : option tetris :=
  g ← lock_cells (t_grid st) p;
  st1 ← clear_lines (set_grid st g);
  np ← new_piece choice;
  let st2 := set_piece st1 np in
  if negb (valid_move (t_grid st2) np 0 0) then Some (set_game_over st2 true)
  else Some st2.

(** [rotate_piece] (lines 124-135): the rotated shape is stored, then the
    old one restored when the rotated piece is not valid. *)
Definition rotate_piece (st : tetris) : tetris :=
  let p := current_piece st in
  let rotated := rotate (pshape p) in
  let st1 := set_piece st (set_shape p rotated) in
  if negb (valid_move (t_grid st1) (current_piece st1) 0 0)
  then set_piece st1 (set_shape (current_piece st1) (pshape p))
  else st1.

(** [update] (lines 137-142). *)
Definition update (st : tetris) (choice : shape) : option tetris :=
  if negb (game_over st) then
    if valid_move (t_grid st) (current_piece st) 0 1
    then Some (set_piece st (shift_piece (current_piece st) 0 1))
    else lock_piece st (current_piece st) choice
  else Some st.

(** [__init__] (lines 58-62). *)
Definition init (choice : shape) : option tetris :=
  p ← new_piece choice;
  Some (mkTetris empty_grid p false 0).

(** ** Writing the piece into the grid *)

Lemma grid_set_ok (g : grid) (x y : Z) (c : cell) :
  grid_wf g -> 0 <= x < GRID_WIDTH -> 0 <= y < GRID_HEIGHT ->
  exists r, g !! Z.to_nat y = Some r /\
    grid_set g x y c = Some (<[Z.to_nat y := <[Z.to_nat x := c]> r]> g).
Proof.
  intros [Hlen Hrows] Hx Hy.
  destruct (lookup_lt_is_Some_2 g (Z.to_nat y)) as [r Hr]; [lia |].
  pose proof (Forall_lookup_1 _ _ _ _ Hrows Hr) as Hw; cbn in Hw.
  exists r. split; [done |]. unfold grid_set.
  py_in_range. rewrite Hr. simpl. py_in_range. simpl. by py_in_range.
Qed.

Lemma grid_wf_set (g : grid) (i j : nat) (r : row) (c : cell) :
  grid_wf g -> g !! i = Some r -> grid_wf (<[i := <[j := c]> r]> g).
Proof.
  intros [Hlen Hrows] Hr. split; [by rewrite length_insert |].
  apply Forall_insert; [done |]. rewrite length_insert.
  exact (Forall_lookup_1 _ _ _ _ Hrows Hr).
Qed.

Lemma lock_cells_from_ok (g : grid) (p : piece) (cells : list (Z * Z)) :
  grid_wf g ->
  (forall x y, In (x, y) cells ->
     0 <= px p + x < GRID_WIDTH /\ 0 <= py p + y < GRID_HEIGHT) ->
  exists g', lock_cells_from g p cells = Some g' /\ grid_wf g' /\
    forall i, (forall x y, In (x, y) cells -> Z.to_nat (py p + y) <> i) ->
      g' !! i = g !! i.
Proof.
  revert g. induction cells as [|[x y] cells IH]; intros g Hwf Hin; simpl.
  - eauto.
  - destruct (Hin x y (or_introl eq_refl)) as [Hx Hy].
    destruct (grid_set_ok g (px p + x) (py p + y) (CColor (pcolor p)) Hwf Hx Hy)
      as [r [Hr ->]]. simpl.
    destruct (IH (<[Z.to_nat (py p + y) := <[Z.to_nat (px p + x) := CColor (pcolor p)]> r]> g))
      as (g' & -> & Hwf' & Hsame); [by apply grid_wf_set | naive_solver |].
    exists g'. split; [done | split; [done |]]. intros i Hi.
    rewrite Hsame by naive_solver. apply list_lookup_insert_ne. naive_solver.
Qed.

(** A valid piece with its anchor at or below the top is written without
    [IndexError]; the rows outside its bounding box are left alone. *)
Lemma lock_cells_ok (g : grid) (p : piece) :
  grid_wf g -> 0 <= py p -> valid_move g p 0 0 = true ->
  exists g', lock_cells g p = Some g' /\ grid_wf g' /\
    forall i, (Z.of_nat i < py p \/ py p + Z.of_nat (length (pshape p)) <= Z.of_nat i) ->
      g' !! i = g !! i.
Proof.
  intros Hwf Hpy Hv. rewrite valid_move_spec in Hv.
  destruct (lock_cells_from_ok g p (shape_cells (pshape p)) Hwf) as (g' & Hl & Hwf' & Hsame).
  - intros x y Hin. pose proof (Hv x y Hin) as Hb. rewrite !Z.add_0_r in Hb.
    apply blocked_false in Hb as (Hx & Hy & _).
    apply in_shape_cells in Hin as (_ & Hy0 & _). lia.
  - exists g'. split; [done | split; [done |]]. intros i Hi. apply Hsame.
    intros x y Hin. apply in_shape_cells in Hin as (_ & Hy0 & row & _ & Hrow & _).
    apply lookup_lt_Some in Hrow. lia.
Qed.

(** Only the rows of the piece's bounding box can be full after the write. *)
Lemma lock_cells_full_rows (g g' : grid) (p : piece) :
  grid_wf g -> Forall (fun r => row_full r = false) g -> 0 <= py p ->
  valid_move g p 0 0 = true -> lock_cells g p = Some g' ->
  (full_rows g' <= length (pshape p))%nat.
Proof.
  intros Hwf Hnf Hpy Hv Hl.
  destruct (lock_cells_ok g p Hwf Hpy Hv) as (g'' & Hl' & _ & Hsame).
  rewrite Hl in Hl'. injection Hl' as <-.
  apply (length_filter_window _ _ (Z.to_nat (py p))). intros i r Hr Hfull.
  destruct (decide (Z.to_nat (py p) <= i < Z.to_nat (py p) + length (pshape p))%nat)
    as [? | Hout]; [done |].
  rewrite Hsame in Hr by lia.
  pose proof (Forall_lookup_1 _ _ _ _ Hnf Hr) as Hnot; cbn in Hnot. congruence.
Qed.

(** ** The engine invariant *)

(** What holds of the object between two calls: the grid is well formed
    and has no full row, the piece has one of the orientations, its anchor
    is at or below the top, it is valid unless the game is over, and the
    score is not negative. *)
Record engine_inv (st : tetris) : Prop := {
  inv_wf : grid_wf (t_grid st);
  inv_no_full : Forall (fun r => row_full r = false) (t_grid st);
  inv_shape : pshape (current_piece st) ∈ orientations;
  inv_py : 0 <= py (current_piece st);
  inv_valid : game_over st = false -> valid_move (t_grid st) (current_piece st) 0 0 = true;
  inv_score : 0 <= score st
}.

#[global] Instance engine_inv_dec (st : tetris) : Decision (engine_inv st).
Proof.
  destruct (decide (grid_wf (t_grid st) /\ Forall (fun r => row_full r = false) (t_grid st) /\
    pshape (current_piece st) ∈ orientations /\ 0 <= py (current_piece st) /\
    (game_over st = false -> valid_move (t_grid st) (current_piece st) 0 0 = true) /\
    0 <= score st)) as [H | H].
  - left. destruct H as (? & ? & ? & ? & ? & ?). by constructor.
  - right. intros []. by apply H.
Defined.

Lemma score_delta_nonneg (n : Z) : 0 <= score_delta n.
Proof. unfold score_delta. repeat case_match; lia. Qed.

Lemma valid_move_offset (g : grid) (p : piece) (dx dy : Z) :
  valid_move g p dx dy = valid_move g (shift_piece p dx dy) 0 0.
Proof.
  unfold valid_move. simpl. induction (shape_cells (pshape p)) as [|[x y] l IH]; [done |].
  simpl. rewrite IH. do 3 f_equal; lia.
Qed.

(** [lock_piece] on the current piece, computed: the grid written and
    cleared, the score table applied to the number of full rows, the new
    piece at its spawn position and [game_over] set by its validity. *)
Lemma lock_piece_eq (st : tetris) (choice : shape) :
  engine_inv st -> game_over st = false -> choice ∈ SHAPES ->
  exists g' c, lock_cells (t_grid st) (current_piece st) = Some g' /\ grid_wf g' /\
    (full_rows g' <= 4)%nat /\
    lock_piece st (current_piece st) choice =
      Some (let np := mkPiece choice c (GRID_WIDTH `div` 2 - Z.of_nat (width choice) `div` 2) 0 in
            let g2 := (clear_spec g').1 in
            mkTetris g2 np (negb (valid_move g2 np 0 0))
              (score st + score_delta (Z.of_nat (full_rows g')))).
Proof.
  intros Hinv Hgo Hc.
  pose proof (inv_valid _ Hinv Hgo) as Hv.
  destruct (lock_cells_ok (t_grid st) (current_piece st) (inv_wf _ Hinv) (inv_py _ Hinv) Hv)
    as (g' & Hl & Hwf' & _).
  pose proof (lock_cells_full_rows _ _ _ (inv_wf _ Hinv) (inv_no_full _ Hinv)
    (inv_py _ Hinv) Hv Hl) as Hfull.
  destruct (orientation_rect _ (inv_shape _ Hinv)) as (_ & Hh & _).
  destruct (new_piece_spec choice Hc) as [c Hnp].
  destruct (clear_spec_ok g' Hwf') as (_ & _ & Hlines).
  exists g', c. split_and!; [done | done | lia |].
  destruct (clear_spec g') as [g2 lines] eqn:E. simpl in Hlines. subst lines.
  unfold lock_piece. rewrite Hl. simpl. unfold clear_lines. simpl.
  rewrite clear_rows_eq_spec, E by apply Hwf'. simpl.
  rewrite Hnp. cbv [set_game_over set_piece set_score set_grid]. simpl.
  destruct (valid_move g2 _ 0 0); simpl; by rewrite ?Hgo.
Qed.

(** Replacing the piece by a valid one of the orientations, at or below the
    top, keeps the invariant. *)
Lemma set_piece_inv (st : tetris) (p : piece) :
  engine_inv st -> pshape p ∈ orientations -> 0 <= py p ->
  valid_move (t_grid st) p 0 0 = true -> engine_inv (set_piece st p).
Proof. intros [] ? ? ?. by constructor. Qed.

(** ** Properties of the methods *)

Lemma lock_piece_inv (st : tetris) (choice : shape) :
  engine_inv st -> game_over st = false -> choice ∈ SHAPES ->
  exists st', lock_piece st (current_piece st) choice = Some st' /\ engine_inv st'.
Proof.
  intros Hinv Hgo Hc.
  destruct (lock_piece_eq st choice Hinv Hgo Hc) as (g' & c & _ & Hwf' & _ & ->).
  destruct (clear_spec_ok g' Hwf') as (Hwf2 & Hnf2 & _).
  eexists; split; [done |]. constructor; simpl; auto with tetris.
  - lia.
  - intros Hv. by apply negb_false_iff in Hv.
  - pose proof (inv_score _ Hinv). pose proof (score_delta_nonneg (Z.of_nat (full_rows g'))). lia.
Qed.

(** C3 (invariant, safety): locking the current piece of a running game
    raises no exception and re-establishes the invariant: the grid stays
    [GRID_HEIGHT] x [GRID_WIDTH] with no full row, the new piece is one of
    [SHAPES] at the top, and it is valid unless the game is now over. *)
Theorem lock_piece_preserves_inv (st : tetris) (choice : shape) :
  engine_inv st -> game_over st = false -> choice ∈ SHAPES ->
  exists st', lock_piece st (current_piece st) choice = Some st' /\ engine_inv st'.
Proof. intros; by eapply lock_piece_inv. Qed.

Lemma lock_piece_score_eq (st : tetris) (choice : shape) :
  engine_inv st -> game_over st = false -> choice ∈ SHAPES ->
  exists st' g' n, lock_piece st (current_piece st) choice = Some st' /\
    lock_cells (t_grid st) (current_piece st) = Some g' /\ n = full_rows g' /\
    (n <= 4)%nat /\ score st' = score st + score_delta (Z.of_nat n).
Proof.
  intros Hinv Hgo Hc.
  destruct (lock_piece_eq st choice Hinv Hgo Hc) as (g' & c & Hl & _ & Hn & ->).
  eexists; exists g', (full_rows g'). by split_and!.
Qed.

(** C4 (functional, bounds): locking the current piece adds to the score
    the table value of the number of rows it completes, and that number is
    at most 4, the height of a tetromino. *)
Theorem lock_piece_score (st : tetris) (choice : shape) :
  engine_inv st -> game_over st = false -> choice ∈ SHAPES ->
  exists st' g' n, lock_piece st (current_piece st) choice = Some st' /\
    lock_cells (t_grid st) (current_piece st) = Some g' /\ n = full_rows g' /\
    (n <= 4)%nat /\ score st' = score st + score_delta (Z.of_nat n).
Proof. intros; by eapply lock_piece_score_eq. Qed.

(** C8 (functional): after a lock the new piece is the chosen shape at the
    top row, and the game is over exactly when that piece collides at its
    spawn position. *)
Theorem lock_piece_game_over (st : tetris) (choice : shape) :
  engine_inv st -> game_over st = false -> choice ∈ SHAPES ->
  exists st', lock_piece st (current_piece st) choice = Some st' /\
    pshape (current_piece st') = choice /\ py (current_piece st') = 0 /\
    (game_over st' = true <-> valid_move (t_grid st') (current_piece st') 0 0 = false).
Proof.
  intros Hinv Hgo Hc.
  destruct (lock_piece_eq st choice Hinv Hgo Hc) as (g' & c & _ & _ & _ & ->).
  eexists; split_and!; [done | done | done |]. simpl. by rewrite negb_true_iff.
Qed.

Lemma rotate_piece_keeps_inv (st : tetris) :
  engine_inv st -> game_over st = false ->
  engine_inv (rotate_piece st) /\
  t_grid (rotate_piece st) = t_grid st /\ score (rotate_piece st) = score st /\
  ((rotate_piece st = set_piece st (set_shape (current_piece st) (rotate (pshape (current_piece st)))) /\
    valid_move (t_grid st) (set_shape (current_piece st) (rotate (pshape (current_piece st)))) 0 0 = true) \/
   rotate_piece st = st).
Proof.
  intros Hinv Hgo. destruct st as [g p go sc]; simpl in *.
  unfold rotate_piece. simpl.
  destruct (valid_move g (set_shape p (rotate (pshape p))) 0 0) eqn:Hv; simpl.
  - split_and!; [| done | done | by left].
    destruct Hinv; constructor; simpl in *; auto with tetris.
  - destruct p. split_and!; [done | done | done | by right].
Qed.

(** [rotate_piece] stores the rotated shape exactly when it is valid at
    the unchanged anchor, and otherwise restores the object. *)
Lemma rotate_piece_eq (st : tetris) :
  rotate_piece st =
  let p' := set_shape (current_piece st) (rotate (pshape (current_piece st))) in
  if valid_move (t_grid st) p' 0 0 then set_piece st p' else st.
Proof.
  destruct st as [g [s c x y] go sc]. unfold rotate_piece. simpl.
  by destruct (valid_move g _ 0 0).
Qed.

(** C12 (invariant, functional): in a running game [rotate_piece] keeps the
    invariant, and it stores the quarter-turned shape, at the same anchor and
    in the same colour, exactly when that shape is valid there; otherwise
    the object is left exactly as it was. *)
Theorem rotate_piece_inv (st : tetris) :
  engine_inv st -> game_over st = false ->
  engine_inv (rotate_piece st) /\
  rotate_piece st =
    (let p' := set_shape (current_piece st) (rotate (pshape (current_piece st))) in
     if valid_move (t_grid st) p' 0 0 then set_piece st p' else st).
Proof.
  intros Hinv Hgo. split; [apply (rotate_piece_keeps_inv st Hinv Hgo) | apply rotate_piece_eq].
Qed.

Lemma update_keeps_inv (st : tetris) (choice : shape) :
  engine_inv st -> choice ∈ SHAPES ->
  exists st', update st choice = Some st' /\ engine_inv st' /\ score st <= score st'.
Proof.
  intros Hinv Hc. unfold update. destruct (game_over st) eqn:Hgo; simpl.
  - eexists; split_and!; [done | done | lia].
  - destruct (valid_move (t_grid st) (current_piece st) 0 1) eqn:Hv.
    + eexists; split_and!; [done | | simpl; lia].
      destruct Hinv; constructor; simpl; auto.
      * pose proof (inv_py0). lia.
      * intros _. by rewrite <- valid_move_offset.
    + destruct (lock_piece_inv st choice Hinv Hgo Hc) as (st' & Hl & Hinv').
      destruct (lock_piece_score_eq st choice Hinv Hgo Hc) as (st'' & g' & n & Hl' & _ & _ & _ & Hs).
      rewrite Hl in Hl'. injection Hl' as <-.
      exists st'. split_and!; [done | done |].
      pose proof (score_delta_nonneg (Z.of_nat n)). lia.
Qed.

(** C11 (invariant, safety): a gravity tick raises no exception, keeps the
    invariant and never decreases the score. *)
Theorem update_inv (st : tetris) (choice : shape) :
  engine_inv st -> choice ∈ SHAPES ->
  exists st', update st choice = Some st' /\ engine_inv st' /\ score st <= score st'.
Proof. intros; by eapply update_keeps_inv. Qed.

(** ** Cells above the top *)

Lemma grid_set_length (g g' : grid) (x y : Z) (c : cell) :
  grid_set g x y c = Some g' -> length g' = length g.
Proof.
  unfold grid_set. intros H. destruct (g.[y]) as [r |]; simpl in H; [| done].
  destruct (r.[x := c]) as [r' |]; simpl in H; [| done]. by eapply py_setitem_length.
Qed.

(** [self.grid[y][x] = c] with [-GRID_HEIGHT <= y < 0] writes row
    [y + GRID_HEIGHT]. *)
Lemma grid_set_wrap (g : grid) (x y : Z) (c : cell) :
  length g = Z.to_nat GRID_HEIGHT -> - GRID_HEIGHT <= y < 0 ->
  grid_set g x y c = grid_set g x (y + GRID_HEIGHT) c.
Proof.
  intros Hlen Hy. pose proof GRID_HEIGHT_pos.
  replace GRID_HEIGHT with (Z.of_nat (length g)) in * by lia.
  unfold grid_set. rewrite py_getitem_wrap by lia.
  destruct (g.[_]) as [r |]; simpl; [| done]. destruct (r.[x := c]); simpl; [| done].
  by rewrite py_setitem_wrap by lia.
Qed.

Lemma lock_cells_from_wrap (g : grid) (p : piece) (cells : list (Z * Z)) :
  length g = Z.to_nat GRID_HEIGHT ->
  (forall x y, In (x, y) cells -> - GRID_HEIGHT <= py p + y < 0) ->
  lock_cells_from g p cells = lock_cells_from g (shift_piece p 0 GRID_HEIGHT) cells.
Proof.
  revert g. induction cells as [|[x y] cells IH]; intros g Hlen Hin; simpl; [done |].
  rewrite grid_set_wrap by (done || apply (Hin x y); by left).
  rewrite Z.add_0_r. replace (py p + GRID_HEIGHT + y) with (py p + y + GRID_HEIGHT) by lia.
  destruct (grid_set _ _ _ _) as [g' |] eqn:E; simpl; [| done].
  apply IH; [by rewrite (grid_set_length _ _ _ _ _ E) | intros x' y' ?; apply (Hin x' y'); by right].
Qed.

(** C19 (error): the write loop of [lock_piece] ([lock_cells]) does not
    drop the cells of a piece above the top of the grid, as the spec says
    it should: Python counts a negative row index from the end of the list,
    so a piece whose cells are all in rows [-GRID_HEIGHT .. -1] is written
    exactly as the same piece [GRID_HEIGHT] rows lower.  No reachable state
    locks such a piece (the invariant keeps [y >= 0]). *)
Theorem lock_cells_negative_row_wraps (g : grid) (p : piece) :
  length g = Z.to_nat GRID_HEIGHT ->
  (forall x y, In (x, y) (shape_cells (pshape p)) -> - GRID_HEIGHT <= py p + y < 0) ->
  lock_cells g p = lock_cells g (shift_piece p 0 GRID_HEIGHT).
Proof. intros Hlen Hin. unfold lock_cells. by apply lock_cells_from_wrap. Qed.

End Engine.

Section Engine2.
Context {D : Dims}.

(** [__init__] on a board at least 4 wide and 2 high starts a running game
    that satisfies the invariant. *)
Lemma init_inv (choice : shape) :
  4 <= GRID_WIDTH -> 2 <= GRID_HEIGHT -> choice ∈ SHAPES ->
  exists st, init choice = Some st /\ engine_inv st /\ game_over st = false.
Proof.
  intros HW HH Hc. destruct (new_piece_valid_empty choice HW HH Hc) as (p & Hp & Hv).
  destruct (new_piece_spec choice Hc) as [c Hnp]. rewrite Hp in Hnp. injection Hnp as ->.
  unfold init. rewrite Hp. eexists; split_and!; [done | | done].
  constructor; simpl; auto with tetris.
  - apply empty_grid_wf.
  - apply Forall_replicate, row_full_empty_row.
  - lia.
  - lia.
Qed.

End Engine2.

(** ** Concrete runs *)

Definition fc : cell := CColor (0, 0, 255).

(** A 4 x 4 game: an O piece resting in the left half of the two bottom
    rows, whose bottom row is filled on the right. *)
Definition st_one_line : tetris :=
  mkTetris [[CZero; CZero; CZero; CZero]; [CZero; CZero; CZero; CZero];
            [CZero; CZero; CZero; CZero]; [CZero; CZero; fc; fc]]
           (mkPiece [[1; 1]; [1; 1]] (255, 255, 0) 0 2) false 0.

Lemma st_one_line_pre :
  @engine_inv dims4 st_one_line /\ game_over st_one_line = false /\ [[1; 1]; [1; 1]] ∈ SHAPES.
Proof.
  split; [eval_decide |].
  split; [reflexivity | eval_decide].
Qed.

Lemma lock_piece_preserves_inv_witness :
  (@engine_inv dims4 st_one_line /\ game_over st_one_line = false /\ [[1; 1]; [1; 1]] ∈ SHAPES) /\
  exists st', @lock_piece dims4 st_one_line (current_piece st_one_line) [[1; 1]; [1; 1]] = Some st' /\
    @engine_inv dims4 st'.
Proof.
  split; [exact st_one_line_pre |]. destruct st_one_line_pre as (H1 & H2 & H3).
  exact (@lock_piece_preserves_inv dims4 _ _ H1 H2 H3).
Defined.

Lemma lock_piece_score_witness :
  exists st' g' n, @lock_piece dims4 st_one_line (current_piece st_one_line) [[1; 1]; [1; 1]] = Some st' /\
    lock_cells (t_grid st_one_line) (current_piece st_one_line) = Some g' /\
    n = full_rows g' /\ (n <= 4)%nat /\
    score st' = score st_one_line + score_delta (Z.of_nat n).
Proof.
  destruct st_one_line_pre as (H1 & H2 & H3).
  exact (@lock_piece_score dims4 _ _ H1 H2 H3).
Defined.

Lemma lock_piece_game_over_witness :
  exists st', @lock_piece dims4 st_one_line (current_piece st_one_line) [[1; 1]; [1; 1]] = Some st' /\
    pshape (current_piece st') = [[1; 1]; [1; 1]] /\ py (current_piece st') = 0 /\
    (game_over st' = true <-> @valid_move dims4 (t_grid st') (current_piece st') 0 0 = false).
Proof.
  destruct st_one_line_pre as (H1 & H2 & H3).
  exact (@lock_piece_game_over dims4 _ _ H1 H2 H3).
Defined.

(** A T piece at the top of an empty 4 x 4 board. *)
Definition st_t_top : tetris :=
  mkTetris (@empty_grid dims4) (mkPiece [[0; 1; 0]; [1; 1; 1]] (128, 0, 128) 1 0) false 0.

Lemma rotate_piece_inv_witness :
  (@engine_inv dims4 st_t_top /\ game_over st_t_top = false) /\
  @engine_inv dims4 (@rotate_piece dims4 st_t_top) /\
  @rotate_piece dims4 st_t_top =
    (let p' := set_shape (current_piece st_t_top) (rotate (pshape (current_piece st_t_top))) in
     if @valid_move dims4 (t_grid st_t_top) p' 0 0 then set_piece st_t_top p' else st_t_top).
Proof.
  assert (H1 : @engine_inv dims4 st_t_top) by eval_decide.
  assert (H2 : game_over st_t_top = false) by reflexivity.
  split; [split; assumption |]. exact (@rotate_piece_inv dims4 _ H1 H2).
Defined.

Lemma update_inv_witness :
  exists st', @update dims4 st_one_line [[1; 1]; [1; 1]] = Some st' /\
    @engine_inv dims4 st' /\ score st_one_line <= score st'.
Proof.
  destruct st_one_line_pre as (H1 & _ & H3).
  exact (@update_inv dims4 _ _ H1 H3).
Defined.

(** The run of [st_one_line]: the O piece completes the bottom row, which is
    cleared for 100 points; the rows above move down by one. *)
Example lock_one_line_run :
  exists st', @lock_piece dims4 st_one_line (current_piece st_one_line) [[1; 1]; [1; 1]] = Some st' /\
    score st' = 100 /\ game_over st' = false /\
    t_grid st' = [[CZero; CZero; CZero; CZero]; [CZero; CZero; CZero; CZero];
                  [CZero; CZero; CZero; CZero];
                  [CColor (255, 255, 0); CColor (255, 255, 0); CZero; CZero]].
Proof. eexists; split; [vm_compute; reflexivity | vm_compute; auto]. Qed.

(** The 4 x 4 example of the spec's testable properties: the two bottom
    rows are full except the leftmost cell of the bottom row, and a piece
    fills that cell. *)
Definition st_spec_example : tetris :=
  mkTetris [[CZero; CZero; CZero; CZero]; [CZero; CZero; CZero; CZero];
            [fc; fc; fc; fc]; [CZero; fc; fc; fc]]
           (mkPiece [[1]] (0, 255, 0) 0 3) false 0.

(** On the spec's 4 x 4 example the row above the completed bottom row is
    already full, so the code clears both rows and adds 300 to the score,
    leaving an empty board, where the spec expects one row cleared and 100
    points. *)
Example spec_example_clears_two_rows :
  exists st', @lock_piece dims4 st_spec_example (current_piece st_spec_example)
                [[1; 1; 1; 1]] = Some st' /\
    score st' = 300 /\ t_grid st' = @empty_grid dims4 /\ game_over st' = false.
Proof. eexists; split; [vm_compute; reflexivity | vm_compute; auto]. Qed.

Lemma lock_cells_negative_row_wraps_witness :
  (length (@empty_grid dims4) = Z.to_nat (@GRID_HEIGHT dims4) /\
   forall x y, In (x, y) (shape_cells [[1]; [1]]) -> - @GRID_HEIGHT dims4 <= -2 + y < 0) /\
  lock_cells (@empty_grid dims4) (mkPiece [[1]; [1]] (255, 0, 0) 1 (-2)) =
  lock_cells (@empty_grid dims4) (shift_piece (mkPiece [[1]; [1]] (255, 0, 0) 1 (-2)) 0 (@GRID_HEIGHT dims4)).
Proof.
  assert (H1 : length (@empty_grid dims4) = Z.to_nat (@GRID_HEIGHT dims4)) by reflexivity.
  assert (H2 : forall x y, In (x, y) (shape_cells [[1]; [1]]) -> - @GRID_HEIGHT dims4 <= -2 + y < 0).
  { intros x y Hin. vm_compute in Hin. destruct Hin as [[= <- <-] | [[= <- <-] | []]]; simpl; lia. }
  split; [split; assumption |].
  exact (@lock_cells_negative_row_wraps dims4 _ (mkPiece [[1]; [1]] (255, 0, 0) 1 (-2)) H1 H2).
Defined.

(** The cell of a piece at [y = -1] lands in the bottom row. *)
Example lock_cells_minus_one_bottom :
  lock_cells (@empty_grid dims4) (mkPiece [[1]] (255, 0, 0) 1 (-1)) =
    Some [[CZero; CZero; CZero; CZero]; [CZero; CZero; CZero; CZero];
          [CZero; CZero; CZero; CZero]; [CZero; CColor (255, 0, 0); CZero; CZero]].
Proof. vm_compute. reflexivity. Qed.
