(* ===== verification/Loop.v ===== *)
(** * Loop: the main loop of [src/tetris.py] (lines 176-223)

    Each pass of [while running:] adds the frame time to [fall_time],
    handles the queued pygame events (lines 190-211), then lets the piece
    fall when [fall_time >= fall_speed] (lines 214-216); drawing is I/O.

    - [key]/[event]: the events the loop distinguishes;
    - [drop_loop]: the hard-drop [while] loop (lines 209-210) with fuel;
      [drop_fuel] is enough fuel for any piece with a cell
      ([drop_loop_terminates]);
    - [handle_key]: the [if/elif] chain on [event.key];
    - [handle_event], [handle_events], [frame]: one pass of the loop, on
      the record [loop_state] of [game], [running] and [fall_time]
      (time counted in milliseconds: [clock.tick(60)] returns milliseconds
      and the model keeps their exact sum);
    - [run], [start]: [while running:] over a list of frames, from
      [game = Tetris()];
    - [step] and [reachable]: the game states the loop can reach from
      [Tetris()], whatever the events and random choices, with the
      invariants proved by induction on reachability, and the theorem
      [frame_reachable] that each executable pass is a sequence of steps. *)

From S2P Require Import Prelude Config Grid Piece Engine.

Inductive key : Type := K_LEFT | K_RIGHT | K_DOWN | K_UP | K_SPACE | K_OTHER.

Inductive event : Type :=
  | QUIT
  | KEYDOWN (k : key)
  | OTHER_EVENT.

Record loop_state : Type := mkLoop {
  game : tetris;       (* game *)
  running : bool;      (* running *)
  fall_time : Z        (* fall_time, in milliseconds *)
}.

(** [fall_speed = 0.5] seconds. *)
Definition fall_speed : Z := 500.

Section Loop.
Context {D : Dims}.

(** [while game.valid_move(game.current_piece, 0, 1):
      game.current_piece["y"] += 1]; [None] when the fuel runs out. *)
Fixpoint drop_loop (fuel : nat) (g : grid) (p : piece) : option piece :=
  match fuel with
  | O => None
  | S fuel' =>
      if valid_move g p 0 1 then drop_loop fuel' g (shift_piece p 0 1) else Some p
  end.

(** The fuel given to the hard drop: one more than the rows below the anchor. *)
Definition drop_fuel (p : piece) : nat := S (Z.to_nat (GRID_HEIGHT - py p)).

(** [K_SPACE] (lines 207-211): drop, then lock. *)
Definition hard_drop (st : tetris) (choice : shape) : option tetris :=
  p ← drop_loop (drop_fuel (current_piece st)) (t_grid st) (current_piece st);
  lock_piece (set_piece st p) p choice.

(** The [if/elif] chain on [event.key] (lines 196-211). *)
Definition handle_key (st : tetris) (k : key) (choice : shape) : option tetris :=
  let g := t_grid st in
  let p := current_piece st in
  match k with
  | K_LEFT =>
      Some (if valid_move g p (-1) 0 then set_piece st (shift_piece p (-1) 0) else st)
  | K_RIGHT =>
      Some (if valid_move g p 1 0 then set_piece st (shift_piece p 1 0) else st)
  | K_DOWN =>
      Some (if valid_move g p 0 1 then set_piece st (shift_piece p 0 1) else st)
  | K_UP => Some (rotate_piece st)
  | K_SPACE => hard_drop st choice
  | K_OTHER => Some st
  end.

(** One event of [for event in pygame.event.get():] (lines 190-211). *)
Definition handle_event (ls : loop_state) (ev : event) (choice : shape) : option loop_state :=
  let ls1 := match ev with
             | QUIT => mkLoop (game ls) false (fall_time ls)
             | _ => ls
             end in
  if negb (game_over (game ls1)) then
    match ev with
    | KEYDOWN k =>
        g' ← handle_key (game ls1) k choice;
        Some (mkLoop g' (running ls1) (fall_time ls1))
    | _ => Some ls1
    end
  else Some ls1.

Fixpoint handle_events (ls : loop_state) (evs : list (event * shape)) : option loop_state :=
  match evs with
  | [] => Some ls
  | (ev, choice) :: evs' =>
      ls' ← handle_event ls ev choice;
      handle_events ls' evs'
  end.

(** One pass of [while running:] (lines 186-216), [dt] milliseconds after
    the previous one, with the events of the frame and the choice the
    gravity step would spawn. *)
Definition frame (ls : loop_state) (dt : Z) (evs : list (event * shape))
    (tick_choice : shape) : option loop_state :=
  let ls0 := mkLoop (game ls) (running ls) (fall_time ls + dt) in
  ls1 ← handle_events ls0 evs;
  if (fall_speed <=? fall_time ls1) && negb (game_over (game ls1)) then
    g' ← update (game ls1) tick_choice;
    Some (mkLoop g' (running ls1) 0)
  else Some ls1.

(** [while running:] (line 184): one [frame] per element of [frames]
    (its [dt], events and gravity choice) until [running] is false. *)
Fixpoint run (ls : loop_state) (frames : list (Z * list (event * shape) * shape)) :
    option loop_state :=
  match frames with
  | [] => Some ls
  | (dt, evs, c) :: frames' =>
      if running ls then ls' ← frame ls dt evs c; run ls' frames' else Some ls
  end.

(** [game = Tetris(); running = True; fall_time = 0] (lines 177-181). *)
Definition start (choice : shape) : option loop_state :=
  st ← init choice;
  Some (mkLoop st true 0).

(** The game states the loop can produce: one key handled or one gravity
    step, while the game is not over, with any shape from [SHAPES] as the
    random choice. *)
Inductive step : tetris -> tetris -> Prop :=
  | step_key st k choice st' :
      game_over st = false -> choice ∈ SHAPES ->
      handle_key st k choice = Some st' -> step st st'
  | step_tick st choice st' :
      game_over st = false -> choice ∈ SHAPES ->
      update st choice = Some st' -> step st st'.

Inductive reachable : tetris -> Prop :=
  | reach_init choice st :
      choice ∈ SHAPES -> init choice = Some st -> reachable st
  | reach_step st st' :
      reachable st -> step st st' -> reachable st'.

(** ** The hard drop terminates *)

Lemma valid_down_bound (g : grid) (p : piece) :
  shape_cells (pshape p) <> [] -> valid_move g p 0 1 = true ->
  py p + 1 < GRID_HEIGHT.
Proof.
  intros Hne Hv. destruct (shape_cells (pshape p)) as [|[x y] l] eqn:E; [done |].
  assert (Hin : In (x, y) (shape_cells (pshape p))) by (rewrite E; left; done).
  apply valid_move_spec with (x := x) (y := y) in Hv; [| done].
  apply blocked_false in Hv as (_ & Hy & _).
  apply in_shape_cells in Hin as (_ & Hy0 & _). lia.
Qed.

Lemma drop_loop_lands (g : grid) (p : piece) (fuel : nat) :
  shape_cells (pshape p) <> [] -> (drop_fuel p <= fuel)%nat ->
  exists p', drop_loop fuel g p = Some p' /\ valid_move g p' 0 1 = false /\
    pshape p' = pshape p /\ pcolor p' = pcolor p /\ px p' = px p /\ py p <= py p' /\
    (valid_move g p 0 0 = true -> valid_move g p' 0 0 = true).
Proof.
  revert p. induction fuel as [|fuel IH]; intros p Hne Hfuel; unfold drop_fuel in *; [lia |].
  simpl. destruct (valid_move g p 0 1) eqn:Hv.
  - pose proof (valid_down_bound g p Hne Hv) as Hb.
    destruct (IH (shift_piece p 0 1)) as (p' & Hd & Hv' & Hs & Hc & Hx & Hy & Hval);
      [done | simpl; lia |].
    exists p'. split_and!; try done; simpl in *; try lia.
    intros _. apply Hval. by rewrite <- valid_move_offset.
  - exists p. split_and!; auto; lia.
Qed.

(** C7 (termination): the hard-drop [while] loop stops within
    [drop_fuel] iterations for a piece with at least one cell; it stops on
    the first position from which the piece cannot move down, reached by
    valid moves straight down. *)
Theorem drop_loop_terminates (g : grid) (p : piece) (fuel : nat) :
  shape_cells (pshape p) <> [] -> (drop_fuel p <= fuel)%nat ->
  exists p', drop_loop fuel g p = Some p' /\ valid_move g p' 0 1 = false /\
    pshape p' = pshape p /\ pcolor p' = pcolor p /\ px p' = px p /\ py p <= py p' /\
    (valid_move g p 0 0 = true -> valid_move g p' 0 0 = true).
Proof. intros; by eapply drop_loop_lands. Qed.

(** Without a cell the condition of the loop never fails: the Python loop
    would not terminate, and no fuel is enough. *)
Lemma drop_loop_no_cells (g : grid) (p : piece) (fuel : nat) :
  shape_cells (pshape p) = [] -> drop_loop fuel g p = None.
Proof.
  revert p. induction fuel as [|fuel IH]; intros p Hnil; [done |].
  simpl. unfold valid_move at 1. rewrite Hnil. simpl. by apply IH.
Qed.

(** ** Safety and invariants of the loop *)

Lemma move_inv (st : tetris) (dx dy : Z) :
  engine_inv st -> 0 <= dy ->
  valid_move (t_grid st) (current_piece st) dx dy = true ->
  engine_inv (set_piece st (shift_piece (current_piece st) dx dy)).
Proof.
  intros Hinv Hdy Hv. apply set_piece_inv; simpl; [done | apply Hinv | |].
  - pose proof (inv_py _ Hinv). lia.
  - by rewrite <- valid_move_offset.
Qed.

(** The hard drop of a running game raises no exception, terminates, and
    locks the piece where it can fall no further. *)
Lemma hard_drop_inv (st : tetris) (choice : shape) :
  engine_inv st -> game_over st = false -> choice ∈ SHAPES ->
  exists p' st', drop_loop (drop_fuel (current_piece st)) (t_grid st) (current_piece st) = Some p' /\
    valid_move (t_grid st) p' 0 0 = true /\ valid_move (t_grid st) p' 0 1 = false /\
    hard_drop st choice = Some st' /\ engine_inv st' /\ score st <= score st'.
Proof.
  intros Hinv Hgo Hc.
  destruct (drop_loop_lands (t_grid st) (current_piece st) (drop_fuel (current_piece st)))
    as (p' & Hd & Hv1 & Hs & _ & _ & Hy & Hv0);
    [apply orientation_cells_nonempty, (inv_shape _ Hinv) | lia |].
  pose proof (Hv0 (inv_valid _ Hinv Hgo)) as Hv.
  assert (Hinv1 : engine_inv (set_piece st p')).
  { apply set_piece_inv; [done | rewrite Hs; apply Hinv | pose proof (inv_py _ Hinv); lia | done]. }
  destruct (lock_piece_inv (set_piece st p') choice Hinv1 Hgo Hc) as (st' & Hl & Hinv').
  destruct (lock_piece_score_eq (set_piece st p') choice Hinv1 Hgo Hc)
    as (st'' & g' & n & Hl' & _ & _ & _ & Hsc).
  rewrite Hl in Hl'. injection Hl' as <-.
  exists p', st'. split_and!; try done.
  - unfold hard_drop. by rewrite Hd.
  - rewrite Hsc. simpl. pose proof (score_delta_nonneg (Z.of_nat n)). lia.
Qed.

Lemma handle_key_keeps_inv (st : tetris) (k : key) (choice : shape) :
  engine_inv st -> game_over st = false -> choice ∈ SHAPES ->
  exists st', handle_key st k choice = Some st' /\ engine_inv st' /\ score st <= score st'.
Proof.
  intros Hinv Hgo Hc. destruct k; simpl.
  - destruct (valid_move _ _ (-1) 0) eqn:Hv; eexists; split_and!;
      try done; try apply move_inv; simpl; auto; lia.
  - destruct (valid_move _ _ 1 0) eqn:Hv; eexists; split_and!;
      try done; try apply move_inv; simpl; auto; lia.
  - destruct (valid_move _ _ 0 1) eqn:Hv; eexists; split_and!;
      try done; try apply move_inv; simpl; auto; lia.
  - destruct (rotate_piece_keeps_inv st Hinv Hgo) as (Hinv' & _ & Hsc & _).
    eexists; split_and!; [done | done | lia].
  - destruct (hard_drop_inv st choice Hinv Hgo Hc) as (p' & st' & _ & _ & _ & Hh & ? & ?).
    eauto.
  - eexists; split_and!; [done | done | lia].
Qed.

(** C10 (invariant, safety): every key the loop handles in a running game
    raises no exception, keeps the invariant and never lowers the score. *)
Theorem handle_key_inv (st : tetris) (k : key) (choice : shape) :
  engine_inv st -> game_over st = false -> choice ∈ SHAPES ->
  exists st', handle_key st k choice = Some st' /\ engine_inv st' /\ score st <= score st'.
Proof. intros; by eapply handle_key_keeps_inv. Qed.

Lemma step_inv (st st' : tetris) :
  engine_inv st -> step st st' -> engine_inv st' /\ score st <= score st'.
Proof.
  intros Hinv Hs. destruct Hs as [st k choice st' Hgo Hc Hk | st choice st' Hgo Hc Hu].
  - destruct (handle_key_keeps_inv st k choice Hinv Hgo Hc) as (st'' & Hk' & ? & ?).
    rewrite Hk in Hk'. by injection Hk' as <-.
  - destruct (update_keeps_inv st choice Hinv Hc) as (st'' & Hu' & ? & ?).
    rewrite Hu in Hu'. by injection Hu' as <-.
Qed.

Lemma reachable_engine_inv (st : tetris) :
  4 <= GRID_WIDTH -> 2 <= GRID_HEIGHT -> reachable st -> engine_inv st.
Proof.
  intros HW HH Hr. induction Hr as [choice st Hc Hi | st st' _ IH Hs].
  - destruct (init_inv choice HW HH Hc) as (st' & Hi' & ? & _).
    rewrite Hi in Hi'. by injection Hi' as <-.
  - by apply (step_inv st st').
Qed.

(** C5 (invariant): on a board at least 4 wide and 2 high (the source's
    is 10 x 20), every game state the loop can reach satisfies the engine
    invariant: the grid keeps its dimensions and has no full row, the piece
    is a tetromino orientation, and it is valid while the game runs. *)
Theorem reachable_inv (st : tetris) :
  4 <= GRID_WIDTH -> 2 <= GRID_HEIGHT -> reachable st -> engine_inv st.
Proof. intros; by eapply reachable_engine_inv. Qed.

Lemma handle_event_inv (ls : loop_state) (ev : event) (choice : shape) :
  engine_inv (game ls) -> choice ∈ SHAPES ->
  exists ls', handle_event ls ev choice = Some ls' /\ engine_inv (game ls') /\
    score (game ls) <= score (game ls').
Proof.
  intros Hinv Hc. unfold handle_event.
  destruct (game_over (game ls)) eqn:Hgo.
  - destruct ev; simpl; rewrite Hgo; eexists; split_and!; try done; simpl; lia.
  - destruct ev as [| k |]; simpl; rewrite Hgo; simpl.
    + eexists; split_and!; [done | done | simpl; lia].
    + destruct (handle_key_keeps_inv (game ls) k choice Hinv Hgo Hc) as (st' & -> & ? & ?).
      eexists; split_and!; [done | done | done].
    + eexists; split_and!; [done | done | lia].
Qed.

Lemma handle_events_inv (ls : loop_state) (evs : list (event * shape)) :
  engine_inv (game ls) -> Forall (fun e => e.2 ∈ SHAPES) evs ->
  exists ls', handle_events ls evs = Some ls' /\ engine_inv (game ls') /\
    score (game ls) <= score (game ls').
Proof.
  revert ls. induction evs as [|[ev c] evs IH]; intros ls Hinv Hevs; simpl.
  - eexists; split_and!; [done | done | lia].
  - inversion Hevs as [| ? ? Hc Hevs']; subst. simpl in Hc.
    destruct (handle_event_inv ls ev c Hinv Hc) as (ls1 & -> & Hinv1 & Hs1).
    destruct (IH ls1 Hinv1 Hevs') as (ls2 & Hh & Hinv2 & Hs2).
    exists ls2. split_and!; [done | done | lia].
Qed.

Lemma frame_keeps_inv (ls : loop_state) (dt : Z) (evs : list (event * shape)) (c : shape) :
  engine_inv (game ls) -> Forall (fun e => e.2 ∈ SHAPES) evs -> c ∈ SHAPES ->
  exists ls', frame ls dt evs c = Some ls' /\ engine_inv (game ls') /\
    score (game ls) <= score (game ls').
Proof.
  intros Hinv Hevs Hc. unfold frame.
  destruct (handle_events_inv (mkLoop (game ls) (running ls) (fall_time ls + dt)) evs Hinv Hevs)
    as (ls1 & -> & Hinv1 & Hs1). simpl in *.
  destruct (_ && _).
  - destruct (update_keeps_inv (game ls1) c Hinv1 Hc) as (st' & -> & ? & ?).
    eexists; split_and!; [done | done | simpl; lia].
  - eexists; split_and!; [done | done | lia].
Qed.

(** C6 (invariant, safety): one pass of the main loop, with any events
    and any random choices from [SHAPES], raises no exception, keeps the
    engine invariant and never lowers the score. *)
Theorem frame_inv (ls : loop_state) (dt : Z) (evs : list (event * shape)) (c : shape) :
  engine_inv (game ls) -> Forall (fun e => e.2 ∈ SHAPES) evs -> c ∈ SHAPES ->
  exists ls', frame ls dt evs c = Some ls' /\ engine_inv (game ls') /\
    score (game ls) <= score (game ls').
Proof. intros; by eapply frame_keeps_inv. Qed.

Lemma handle_events_game_over (ls : loop_state) (evs : list (event * shape)) :
  game_over (game ls) = true ->
  exists ls', handle_events ls evs = Some ls' /\ game ls' = game ls.
Proof.
  revert ls. induction evs as [|[ev c] evs IH]; intros ls Hgo; simpl; [eauto |].
  assert (Hev : handle_event ls ev c = Some (match ev with
             | QUIT => mkLoop (game ls) false (fall_time ls) | _ => ls end)).
  { unfold handle_event. destruct ev; simpl; by rewrite Hgo. }
  rewrite Hev. simpl.
  destruct (IH (match ev with QUIT => mkLoop (game ls) false (fall_time ls) | _ => ls end))
    as (ls' & Hh & Hg); [by destruct ev |].
  exists ls'. split; [done |]. rewrite Hg. by destruct ev.
Qed.

(** C9 (safety): once the game is over, a pass of the main loop changes
    nothing of the game: grid, piece, score and flag stay as they are,
    whatever keys are pressed and however much time passes. *)
Theorem frame_game_over (ls : loop_state) (dt : Z) (evs : list (event * shape)) (c : shape) :
  game_over (game ls) = true ->
  exists ls', frame ls dt evs c = Some ls' /\ game ls' = game ls.
Proof.
  intros Hgo. unfold frame.
  destruct (handle_events_game_over (mkLoop (game ls) (running ls) (fall_time ls + dt)) evs Hgo)
    as (ls1 & -> & Hg). simpl in *. rewrite Hg, Hgo, andb_false_r. eauto.
Qed.

(** ** The loop refines the step relation *)

Lemma handle_events_reachable (ls ls' : loop_state) (evs : list (event * shape)) :
  reachable (game ls) -> Forall (fun e => e.2 ∈ SHAPES) evs ->
  handle_events ls evs = Some ls' -> reachable (game ls').
Proof.
  revert ls. induction evs as [|[ev c] evs IH]; intros ls Hr Hevs Hh; simpl in Hh.
  - by injection Hh as <-.
  - inversion Hevs as [| ? ? Hc Hevs']; subst. simpl in Hc.
    destruct (handle_event ls ev c) as [ls1 |] eqn:He; simpl in Hh; [| done].
    apply (IH ls1); [| done | done].
    unfold handle_event in He. destruct ev as [| k |]; simpl in He;
      destruct (game_over (game ls)) eqn:Hgo; simpl in He; try (by injection He as <-).
    destruct (handle_key (game ls) k c) as [st' |] eqn:Hk; simpl in He; [| done].
    injection He as <-. simpl. eapply reach_step; [done |]. by eapply step_key.
Qed.

Lemma frame_steps_reachable (ls ls' : loop_state) (dt : Z) (evs : list (event * shape)) (c : shape) :
  reachable (game ls) -> Forall (fun e => e.2 ∈ SHAPES) evs -> c ∈ SHAPES ->
  frame ls dt evs c = Some ls' -> reachable (game ls').
Proof.
  intros Hr Hevs Hc Hf. unfold frame in Hf.
  destruct (handle_events _ evs) as [ls1 |] eqn:Hh; simpl in Hf; [| done].
  pose proof (handle_events_reachable (mkLoop (game ls) (running ls) (fall_time ls + dt))
    _ _ Hr Hevs Hh) as Hr1.
  destruct (_ && _) eqn:Hcond; [| by injection Hf as <-].
  apply andb_true_iff in Hcond as [_ Hgo%negb_true_iff].
  destruct (update (game ls1) c) as [st' |] eqn:Hu; simpl in Hf; [| done].
  injection Hf as <-. simpl. eapply reach_step; [done |]. by eapply step_tick.
Qed.

(** C20 (refinement): every pass of the executable main loop is a
    sequence of steps of the step relation: from a reachable game it
    reaches a reachable game. *)
Theorem frame_reachable (ls ls' : loop_state) (dt : Z) (evs : list (event * shape)) (c : shape) :
  reachable (game ls) -> Forall (fun e => e.2 ∈ SHAPES) evs -> c ∈ SHAPES ->
  frame ls dt evs c = Some ls' -> reachable (game ls').
Proof. intros; by eapply frame_steps_reachable. Qed.

(** C21 (safety): on a board at least 4 wide and 2 high, the whole main
    loop, started by [Tetris()] and run for any sequence of frames with any
    events and random shapes, raises no exception and ends in a reachable
    state that satisfies the engine invariant. *)
Theorem run_safe (c0 : shape) (frames : list (Z * list (event * shape) * shape)) :
  4 <= GRID_WIDTH -> 2 <= GRID_HEIGHT -> c0 ∈ SHAPES ->
  Forall (fun f => Forall (fun e => e.2 ∈ SHAPES) f.1.2 /\ f.2 ∈ SHAPES) frames ->
  exists ls', (ls ← start c0; run ls frames) = Some ls' /\
    reachable (game ls') /\ engine_inv (game ls').
Proof.
  intros HW HH Hc0 Hfr.
  destruct (init_inv c0 HW HH Hc0) as (st & Hi & _ & _).
  unfold start. rewrite Hi. simpl.
  assert (Hr : reachable (game (mkLoop st true 0))) by (by eapply reach_init).
  generalize (mkLoop st true 0) Hr. clear st Hi Hr.
  induction frames as [|[[dt evs] c] frames IH]; intros ls Hr; simpl.
  - eexists; split_and!; [done | done | by apply reachable_engine_inv].
  - inversion Hfr as [| ? ? [Hevs Hc] Hfr']; subst. simpl in Hevs, Hc.
    destruct (running ls); [| eexists; split_and!; [done | done | by apply reachable_engine_inv]].
    destruct (frame_keeps_inv ls dt evs c (reachable_engine_inv _ HW HH Hr) Hevs Hc) as (ls1 & Hf & _ & _).
    rewrite Hf. simpl. apply (IH Hfr' ls1). by eapply frame_steps_reachable.
Qed.

End Loop.

(** ** Witnesses *)

Lemma handle_key_inv_witness :
  exists st', @handle_key dims4 st_one_line K_SPACE [[1; 1]; [1; 1]] = Some st' /\
    @engine_inv dims4 st' /\ score st_one_line <= score st'.
Proof.
  destruct st_one_line_pre as (H1 & H2 & H3).
  exact (@handle_key_inv dims4 _ K_SPACE _ H1 H2 H3).
Defined.

Definition st_init10 : tetris :=
  mkTetris (@empty_grid py_dims) (mkPiece [[1; 1; 1; 1]] (0, 255, 255) 3 0) false 0.

Lemma st_init10_reachable : @reachable py_dims st_init10.
Proof. apply (reach_init [[1; 1; 1; 1]]); [eval_decide | vm_compute; reflexivity]. Qed.

Lemma reachable_inv_witness :
  (4 <= @GRID_WIDTH py_dims /\ 2 <= @GRID_HEIGHT py_dims /\ @reachable py_dims st_init10) /\
  @engine_inv py_dims st_init10.
Proof.
  split; [split; [simpl; lia | split; [simpl; lia | exact st_init10_reachable]] |].
  apply (@reachable_inv py_dims st_init10); [simpl; lia | simpl; lia | exact st_init10_reachable].
Defined.

Definition o_top : piece := mkPiece [[1; 1]; [1; 1]] (255, 255, 0) 1 0.

Lemma drop_loop_terminates_witness :
  (shape_cells (pshape o_top) <> [] /\ (@drop_fuel dims4 o_top <= 5)%nat) /\
  exists p', @drop_loop dims4 5 (@empty_grid dims4) o_top = Some p' /\
    @valid_move dims4 (@empty_grid dims4) p' 0 1 = false /\
    pshape p' = pshape o_top /\ pcolor p' = pcolor o_top /\ px p' = px o_top /\
    py o_top <= py p' /\
    (@valid_move dims4 (@empty_grid dims4) o_top 0 0 = true ->
     @valid_move dims4 (@empty_grid dims4) p' 0 0 = true).
Proof.
  assert (H1 : shape_cells (pshape o_top) <> []) by (vm_compute; discriminate).
  assert (H2 : (@drop_fuel dims4 o_top <= 5)%nat) by (vm_compute; lia).
  split; [split; [exact H1 | exact H2] |].
  exact (@drop_loop_terminates dims4 _ o_top 5 H1 H2).
Defined.

Lemma frame_inv_witness :
  exists ls', @frame dims4 (mkLoop st_one_line true 0) 500
      [(KEYDOWN K_LEFT, [[1; 1]; [1; 1]]); (KEYDOWN K_SPACE, [[0; 1; 0]; [1; 1; 1]])]
      [[1; 1; 1; 1]] = Some ls' /\
    @engine_inv dims4 (game ls') /\ score st_one_line <= score (game ls').
Proof.
  destruct st_one_line_pre as (H1 & _ & H3).
  assert (Hevs : Forall (fun e => e.2 ∈ SHAPES)
    [(KEYDOWN K_LEFT, [[1; 1]; [1; 1]]); (KEYDOWN K_SPACE, [[0; 1; 0]; [1; 1; 1]])]).
  { eval_decide. }
  assert (Hc : [[1; 1; 1; 1]] ∈ SHAPES).
  { eval_decide. }
  exact (@frame_inv dims4 (mkLoop st_one_line true 0) 500 _ _ H1 Hevs Hc).
Defined.

Definition ls_over : loop_state := mkLoop (set_game_over st_one_line true) true 0.

Lemma frame_game_over_witness :
  game_over (game ls_over) = true /\
  exists ls', @frame dims4 ls_over 900 [(KEYDOWN K_SPACE, [[1; 1]; [1; 1]]); (QUIT, [[1; 1]; [1; 1]])]
      [[1; 1]; [1; 1]] = Some ls' /\ game ls' = game ls_over.
Proof.
  assert (H : game_over (game ls_over) = true) by reflexivity.
  split; [exact H | exact (@frame_game_over dims4 ls_over 900 _ _ H)].
Defined.

Lemma frame_reachable_witness :
  exists ls', @frame py_dims (mkLoop st_init10 true 0) 500
      [(KEYDOWN K_SPACE, [[1; 1]; [1; 1]])] [[0; 1; 0]; [1; 1; 1]] = Some ls' /\
    @reachable py_dims (game ls').
Proof.
  eexists. split; [vm_compute; reflexivity |].
  apply (@frame_reachable py_dims (mkLoop st_init10 true 0) _ 500
    [(KEYDOWN K_SPACE, [[1; 1]; [1; 1]])] [[0; 1; 0]; [1; 1; 1]]);
    [exact st_init10_reachable | eval_decide | eval_decide | vm_compute; reflexivity].
Defined.

Definition frames_example : list (Z * list (event * shape) * shape) :=
  [(500, [(KEYDOWN K_LEFT, [[1; 1]; [1; 1]]); (KEYDOWN K_SPACE, [[1; 1]; [1; 1]])],
    [[0; 1; 0]; [1; 1; 1]]);
   (16, [(KEYDOWN K_UP, [[0; 1; 1]; [1; 1; 0]])], [[1; 1; 0]; [0; 1; 1]]);
   (500, [(QUIT, [[1; 1; 1; 1]])], [[1; 1; 1; 1]])].

Lemma run_safe_witness :
  (4 <= @GRID_WIDTH py_dims /\ 2 <= @GRID_HEIGHT py_dims /\ [[1; 1; 1; 1]] ∈ SHAPES /\
   Forall (fun f => Forall (fun e => e.2 ∈ SHAPES) f.1.2 /\ f.2 ∈ SHAPES) frames_example) /\
  exists ls', (ls ← @start py_dims [[1; 1; 1; 1]]; @run py_dims ls frames_example) = Some ls' /\
    @reachable py_dims (game ls') /\ @engine_inv py_dims (game ls').
Proof.
  assert (H1 : 4 <= @GRID_WIDTH py_dims) by (simpl; lia).
  assert (H2 : 2 <= @GRID_HEIGHT py_dims) by (simpl; lia).
  assert (H3 : [[1; 1; 1; 1]] ∈ SHAPES) by eval_decide.
  assert (H4 : Forall (fun f => Forall (fun e => e.2 ∈ SHAPES) f.1.2 /\ f.2 ∈ SHAPES)
                 frames_example) by eval_decide.
  split; [split_and!; assumption |].
  exact (@run_safe py_dims _ frames_example H1 H2 H3 H4).
Defined.
