(* ===== verification/Cells.v ===== *)
(** * Cells: what the grid's cells and the falling piece hold

    The occupied cells of [self.grid] are what the game has locked.  This
    file proves, over every state the main loop can reach,
    - a type invariant of the falling piece: it is always one of the seven
      tetrominoes, in one of its four orientations, in the colour of its
      index ([reachable_piece_kind]);
    - the write specification of the lock loop ([lock_cells_writes]);
    - the bookkeeping of occupied cells: a lock adds the four cells of the
      tetromino and each cleared row takes away [GRID_WIDTH] cells
      ([lock_piece_count]). *)

From S2P Require Import Prelude Config Grid Piece Engine Loop.

(** ** The kind of the falling piece *)

(** The shapes [rotate_piece] can turn a spawned shape into. *)
Definition turns (s : shape) : list shape :=
  [s; rotate s; rotate (rotate s); rotate (rotate (rotate s))].

(** The piece is the tetromino of some index [i] of [SHAPES], in one of
    its orientations, in the colour [COLORS[i]] of that index. *)
Definition piece_kind (p : piece) : Prop :=
  exists i s, SHAPES !! i = Some s /\ COLORS !! i = Some (pcolor p) /\ pshape p ∈ turns s.

Lemma turns_closed :
  Forall (fun s => Forall (fun s' => rotate s' ∈ turns s) (turns s)) SHAPES.
Proof. eval_decide. Qed.

Lemma turns_rotate (i : nat) (s s' : shape) :
  SHAPES !! i = Some s -> s' ∈ turns s -> rotate s' ∈ turns s.
Proof.
  intros Hs Hs'. pose proof (Forall_lookup_1 _ _ _ _ turns_closed Hs) as F.
  apply (proj1 (List.Forall_forall _ _) F). by apply list_elem_of_In.
Qed.

Lemma piece_kind_same (p p' : piece) :
  pshape p' = pshape p -> pcolor p' = pcolor p -> piece_kind p -> piece_kind p'.
Proof. intros Hs Hc (i & s & ? & ? & ?). exists i, s. by rewrite Hs, Hc. Qed.

Lemma drop_loop_piece {D : Dims} (fuel : nat) (g : grid) (p p' : piece) :
  drop_loop fuel g p = Some p' -> pshape p' = pshape p /\ pcolor p' = pcolor p.
Proof.
  revert p. induction fuel as [|fuel IH]; intros p H; simpl in H; [done |].
  destruct (valid_move g p 0 1); [by apply IH in H | by injection H as <-].
Qed.

Section Kind.
Context {D : Dims}.

Lemma new_piece_kind (choice : shape) (p : piece) :
  new_piece choice = Some p -> piece_kind p.
Proof.
  unfold new_piece. intros H.
  destruct (py_index SHAPES choice) as [i |] eqn:Hi; simpl in H; [| done].
  destruct (COLORS.[Z.of_nat i]) as [c |] eqn:Hc; simpl in H; [| done].
  destruct (choice.[0]); simpl in H; [| done]. injection H as <-.
  apply py_index_Some in Hi. pose proof (lookup_lt_Some _ _ _ Hi) as Hlt.
  rewrite length_SHAPES_COLORS in Hlt.
  apply py_getitem_Some in Hc as (j & Hj & Hcj).
  rewrite py_norm_in in Hj by lia. injection Hj as <-.
  rewrite Nat2Z.id in Hcj. exists i, choice. split_and!; [done | done | by left].
Qed.

(** Whatever [lock_piece] returns holds the newly spawned piece. *)
Lemma lock_piece_kind (st st' : tetris) (p : piece) (choice : shape) :
  lock_piece st p choice = Some st' -> piece_kind (current_piece st').
Proof.
  unfold lock_piece. intros H.
  destruct (lock_cells _ _); simpl in H; [| done].
  destruct (clear_lines _) as [st1 |]; simpl in H; [| done].
  destruct (new_piece choice) as [np |] eqn:Hnp; simpl in H; [| done].
  apply new_piece_kind in Hnp. by destruct (negb _); injection H as <-.
Qed.

Lemma step_kind (st st' : tetris) :
  piece_kind (current_piece st) -> step st st' -> piece_kind (current_piece st').
Proof.
  intros Hk Hs. destruct Hs as [st k choice st' _ _ Hkey | st choice st' _ _ Hu].
  - destruct k; simpl in Hkey.
    + destruct (valid_move _ _ (-1) 0); injection Hkey as <-; done.
    + destruct (valid_move _ _ 1 0); injection Hkey as <-; done.
    + destruct (valid_move _ _ 0 1); injection Hkey as <-; done.
    + injection Hkey as <-. rewrite rotate_piece_eq. simpl.
      destruct (valid_move _ _ 0 0); [| done].
      destruct Hk as (i & s & Hs & Hc & Ht). exists i, s. split_and!; [done | done |].
      by apply (turns_rotate i s).
    + unfold hard_drop in Hkey.
      destruct (drop_loop _ _ _) as [p' |]; simpl in Hkey; [| done].
      by apply lock_piece_kind in Hkey.
    + by injection Hkey as <-.
  - unfold update in Hu. destruct (game_over st); simpl in Hu; [by injection Hu as <- |].
    destruct (valid_move _ _ 0 1); [by injection Hu as <- |].
    by apply lock_piece_kind in Hu.
Qed.

(** C23 (type): in every state the main loop can reach, the falling piece
    is one of the seven tetrominoes of [SHAPES], in one of the four
    orientations its rotations give, drawn in the colour [COLORS] assigns
    to that tetromino: moves and rotations keep the kind, and each lock
    spawns a new piece with the colour of its own index. *)
Theorem reachable_piece_kind (st : tetris) : reachable st -> piece_kind (current_piece st).
Proof.
  induction 1 as [choice st Hc Hi | st st' _ IH Hs].
  - unfold init in Hi. destruct (new_piece choice) as [p |] eqn:Hp; simpl in Hi; [| done].
    injection Hi as <-. exact (new_piece_kind _ _ Hp).
  - exact (step_kind st st' IH Hs).
Qed.

End Kind.

Lemma reachable_piece_kind_witness :
  @reachable py_dims st_init10 /\ piece_kind (current_piece st_init10).
Proof.
  split; [exact st_init10_reachable | exact (@reachable_piece_kind py_dims _ st_init10_reachable)].
Defined.

(** ** Counting the occupied cells *)

(** The number of truthy cells of a row, and of the grid. *)
Definition row_count (r : row) : nat := length (filter (fun c => cell_truthy c = true) r).

Definition occupied (g : grid) : nat := sum_list_with row_count g.

Lemma row_count_insert_empty (r : row) (j : nat) (c : color) :
  r !! j = Some CZero -> row_count (<[j := CColor c]> r) = S (row_count r).
Proof.
  unfold row_count. revert j. induction r as [|a r IH]; intros [|j] Hj; simplify_eq/=.
  - rewrite !filter_cons. repeat case_decide; simpl in *; done.
  - rewrite !filter_cons. case_decide; simpl; [f_equal |]; by apply IH.
Qed.

Lemma occupied_insert (g : grid) (i : nat) (r r' : row) :
  g !! i = Some r -> (occupied (<[i := r']> g) + row_count r = occupied g + row_count r')%nat.
Proof.
  unfold occupied. revert i. induction g as [|a g IH]; intros [|i] Hi; simplify_eq/=.
  - lia.
  - specialize (IH i Hi). lia.
Qed.

Lemma row_count_full (r : row) : row_full r = true -> row_count r = length r.
Proof.
  unfold row_full, row_count. induction r as [|a r IH]; intros H; [done |].
  simpl in H. apply andb_true_iff in H as [Ha Hr].
  rewrite filter_cons, decide_True by done. simpl. by rewrite IH.
Qed.

Lemma row_count_empty_row `{!Dims} : row_count empty_row = 0%nat.
Proof.
  unfold row_count, empty_row. induction (Z.to_nat GRID_WIDTH) as [|n IH]; [done |].
  simpl. rewrite filter_cons, decide_False by done. exact IH.
Qed.

(** A well-formed grid's cells are those of its kept rows and [GRID_WIDTH]
    per full row. *)
Lemma occupied_kept_rows `{!Dims} (g : grid) :
  Forall (fun r => length r = Z.to_nat GRID_WIDTH) g ->
  occupied g = (occupied (kept_rows g) + full_rows g * Z.to_nat GRID_WIDTH)%nat.
Proof.
  unfold occupied, kept_rows, full_rows. induction g as [|r g IH]; intros Hw; [done |].
  inversion Hw as [| ? ? Hr Hw']; subst. rewrite !filter_cons.
  destruct (row_full r) eqn:E; repeat case_decide; try congruence; simpl;
    rewrite IH by done; [rewrite row_count_full by done |]; lia.
Qed.

(** The reference result of clearing has [GRID_WIDTH] cells fewer per
    full row. *)
Lemma occupied_clear_spec `{!Dims} (g : grid) :
  Forall (fun r => length r = Z.to_nat GRID_WIDTH) g ->
  (occupied (clear_spec g).1 + full_rows g * Z.to_nat GRID_WIDTH = occupied g)%nat.
Proof.
  intros Hw. rewrite (occupied_kept_rows g Hw). unfold clear_spec, occupied. simpl.
  rewrite sum_list_with_app.
  assert (Hz : sum_list_with row_count (replicate (length g - length (kept_rows g)) empty_row) = 0%nat).
  { induction (length g - length (kept_rows g))%nat as [|n IH]; [done |].
    simpl. by rewrite row_count_empty_row, IH. }
  rewrite Hz. lia.
Qed.

Section Count.
Context {D : Dims}.

Lemma grid_get_set_ne (g : grid) (r : row) (x y x' y' : Z) (c : cell) :
  grid_wf g -> g !! Z.to_nat y = Some r ->
  0 <= x < GRID_WIDTH -> 0 <= y < GRID_HEIGHT ->
  0 <= x' < GRID_WIDTH -> 0 <= y' < GRID_HEIGHT -> (x', y') <> (x, y) ->
  grid_get (<[Z.to_nat y := <[Z.to_nat x := c]> r]> g) x' y' = grid_get g x' y'.
Proof.
  intros [Hlen Hrows] Hr Hx Hy Hx' Hy' Hne. unfold grid_get.
  rewrite !py_getitem_in by (rewrite ?length_insert; lia).
  destruct (decide (y' = y)) as [-> | Hyy].
  - rewrite list_lookup_insert_eq, Hr by lia. simpl.
    pose proof (Forall_lookup_1 _ _ _ _ Hrows Hr) as Hw; cbn in Hw.
    rewrite !py_getitem_in by (rewrite ?length_insert; lia).
    rewrite list_lookup_insert_ne; [done |]. intros E. apply Hne. f_equal. lia.
  - rewrite list_lookup_insert_ne; [done | lia].
Qed.

Lemma grid_get_free (g : grid) (x y : Z) :
  grid_wf g -> 0 <= x < GRID_WIDTH -> 0 <= y < GRID_HEIGHT ->
  cell_truthy (default CZero (grid_get g x y)) = false ->
  exists r, g !! Z.to_nat y = Some r /\ r !! Z.to_nat x = Some CZero.
Proof.
  intros Hwf Hx Hy Hf. destruct (grid_get_in g x y Hwf Hx Hy) as [c Hc].
  rewrite Hc in Hf. destruct c; [| done]. unfold grid_get in Hc.
  destruct (g.[y]) as [r |] eqn:Hr; simpl in Hc; [| done].
  destruct Hwf as [Hlen Hrows]. rewrite py_getitem_in in Hr by lia.
  pose proof (Forall_lookup_1 _ _ _ _ Hrows Hr) as Hw; cbn in Hw.
  exists r. split; [done |]. rewrite py_getitem_in in Hc by lia. done.
Qed.

Lemma grid_get_set_eq (g : grid) (r : row) (x y : Z) (c : cell) :
  grid_wf g -> g !! Z.to_nat y = Some r ->
  0 <= x < GRID_WIDTH -> 0 <= y < GRID_HEIGHT ->
  grid_get (<[Z.to_nat y := <[Z.to_nat x := c]> r]> g) x y = Some c.
Proof.
  intros [Hlen Hrows] Hr Hx Hy. unfold grid_get.
  pose proof (Forall_lookup_1 _ _ _ _ Hrows Hr) as Hw; cbn in Hw.
  rewrite py_getitem_in by (rewrite length_insert; lia).
  rewrite list_lookup_insert_eq by lia. simpl.
  rewrite py_getitem_in by (rewrite length_insert; lia).
  apply list_lookup_insert_eq. lia.
Qed.

(** The write loop over a list of in-range cells: afterwards a cell of the
    grid holds the piece's colour if it is one of the cells, and what it
    held before otherwise. *)
Lemma lock_cells_from_spec (g : grid) (p : piece) (cells : list (Z * Z)) :
  grid_wf g ->
  (forall x y, In (x, y) cells -> 0 <= px p + x < GRID_WIDTH /\ 0 <= py p + y < GRID_HEIGHT) ->
  exists g', lock_cells_from g p cells = Some g' /\ grid_wf g' /\
    forall x y, 0 <= x < GRID_WIDTH -> 0 <= y < GRID_HEIGHT ->
      grid_get g' x y =
        if decide ((x - px p, y - py p) ∈ cells) then Some (CColor (pcolor p)) else grid_get g x y.
Proof.
  revert g. induction cells as [|[a b] cells IH]; intros g Hwf Hin; cbn [lock_cells_from].
  - exists g. split_and!; [done | done |]. intros x y _ _. rewrite decide_False; [done |].
    apply not_elem_of_nil.
  - destruct (Hin a b (or_introl eq_refl)) as [Ha Hb].
    destruct (grid_set_ok g (px p + a) (py p + b) (CColor (pcolor p)) Hwf Ha Hb)
      as [r [Hr ->]]. simpl.
    destruct (IH _ (grid_wf_set g _ (Z.to_nat (px p + a)) r (CColor (pcolor p)) Hwf Hr))
      as (g' & -> & Hwf' & Hg'); [naive_solver |].
    exists g'. split_and!; [done | done |]. intros x y Hx Hy. rewrite Hg' by done.
    destruct (decide ((x - px p, y - py p) ∈ cells)) as [Hc | Hc].
    { rewrite decide_True; [done | by right]. }
    destruct (decide ((x, y) = (px p + a, py p + b))) as [[= -> ->] | Hne].
    + rewrite decide_True; [| replace (px p + a - px p) with a by lia;
        replace (py p + b - py p) with b by lia; left].
      by apply grid_get_set_eq.
    + rewrite grid_get_set_ne by done. rewrite decide_False; [done |].
      intros [[= E1 E2] | ?]%elem_of_cons; [| done]. apply Hne. f_equal; lia.
Qed.

(** C17 (functional): when every cell of the piece lies in the grid, the
    write loop of [lock_piece] raises no exception, keeps the grid's
    dimensions, and afterwards the cell at [(x, y)] holds the piece's
    colour if [(x - piece.x, y - piece.y)] is a truthy entry of the shape,
    and what it held before otherwise. *)
Theorem lock_cells_writes (g : grid) (p : piece) :
  grid_wf g ->
  (forall x y, In (x, y) (shape_cells (pshape p)) ->
     0 <= px p + x < GRID_WIDTH /\ 0 <= py p + y < GRID_HEIGHT) ->
  exists g', lock_cells g p = Some g' /\ grid_wf g' /\
    forall x y, 0 <= x < GRID_WIDTH -> 0 <= y < GRID_HEIGHT ->
      grid_get g' x y =
        if decide ((x - px p, y - py p) ∈ shape_cells (pshape p))
        then Some (CColor (pcolor p)) else grid_get g x y.
Proof. intros Hwf Hin. by apply lock_cells_from_spec. Qed.

(** Writing [n] distinct free in-range cells adds [n] occupied cells. *)
Lemma lock_cells_from_count (g : grid) (p : piece) (cells : list (Z * Z)) :
  grid_wf g -> NoDup cells ->
  (forall x y, (x, y) ∈ cells ->
     0 <= px p + x < GRID_WIDTH /\ 0 <= py p + y < GRID_HEIGHT /\
     cell_truthy (default CZero (grid_get g (px p + x) (py p + y))) = false) ->
  exists g', lock_cells_from g p cells = Some g' /\
    occupied g' = (occupied g + length cells)%nat.
Proof.
  revert g. induction cells as [|[x y] cells IH]; intros g Hwf Hnd Hin; simpl.
  - eexists; split; [done | lia].
  - inversion_clear Hnd as [|? ? Hnotin Hnd'].
    destruct (Hin x y ltac:(left)) as (Hx & Hy & Hfree).
    destruct (grid_set_ok g (px p + x) (py p + y) (CColor (pcolor p)) Hwf Hx Hy)
      as [r [Hr ->]]. simpl.
    destruct (grid_get_free g _ _ Hwf Hx Hy Hfree) as (r0 & Hr0 & Hc0).
    rewrite Hr in Hr0. injection Hr0 as <-.
    destruct (IH (<[Z.to_nat (py p + y) := <[Z.to_nat (px p + x) := CColor (pcolor p)]> r]> g))
      as (g' & -> & Hcount); [by apply grid_wf_set | exact Hnd' | |].
    + intros x' y' Hin'. destruct (Hin x' y' (list_elem_of_further _ _ _ Hin')) as (Hx' & Hy' & Hf').
      split; [done | split; [done |]]. rewrite grid_get_set_ne; try done.
      intros [= E1 E2]. apply Hnotin. replace x' with x in Hin' by lia.
      by replace y' with y in Hin' by lia.
    + exists g'. split; [done |].
      pose proof (occupied_insert g _ r (<[Z.to_nat (px p + x) := CColor (pcolor p)]> r) Hr) as Hocc.
      rewrite row_count_insert_empty in Hocc by done. lia.
Qed.

(** C24 (functional): locking the current piece of a running game writes
    exactly four new occupied cells, and every row it completes takes away
    [GRID_WIDTH] cells: the cells after the lock plus [GRID_WIDTH] per
    cleared row are the cells before plus four; the number of cleared rows
    is the one the score table is applied to. *)
Theorem lock_piece_count (st : tetris) (choice : shape) :
  engine_inv st -> game_over st = false -> choice ∈ SHAPES ->
  exists st' n, lock_piece st (current_piece st) choice = Some st' /\ (n <= 4)%nat /\
    score st' = score st + score_delta (Z.of_nat n) /\
    (occupied (t_grid st') + n * Z.to_nat GRID_WIDTH = occupied (t_grid st) + 4)%nat.
Proof.
  intros Hinv Hgo Hc.
  destruct (lock_piece_eq st choice Hinv Hgo Hc) as (g' & c & Hl & Hwf' & Hn & ->).
  destruct (orientation_cells _ (inv_shape _ Hinv)) as [H4 Hnd].
  pose proof (inv_valid _ Hinv Hgo) as Hv. rewrite valid_move_spec in Hv.
  destruct (lock_cells_from_count (t_grid st) (current_piece st)
    (shape_cells (pshape (current_piece st))) (inv_wf _ Hinv) Hnd) as (g'' & Hl' & Hcount).
  { intros x y Hin%list_elem_of_In. pose proof (Hv x y Hin) as Hb.
    rewrite !Z.add_0_r in Hb. apply blocked_false in Hb as (Hx & Hy & Hf).
    pose proof (inv_py _ Hinv). apply in_shape_cells in Hin as (_ & Hy0 & _).
    split_and!; try lia. apply Hf. lia. }
  unfold lock_cells in Hl. rewrite Hl in Hl'. injection Hl' as <-.
  pose proof (occupied_clear_spec g' (proj2 Hwf')) as Hclear.
  eexists; exists (full_rows g'). split_and!; [done | done | done |]. cbn [t_grid]. lia.
Qed.

End Count.

Lemma lock_piece_count_witness :
  exists st' n, @lock_piece dims4 st_one_line (current_piece st_one_line) [[1; 1]; [1; 1]] = Some st' /\
    (n <= 4)%nat /\ score st' = score st_one_line + score_delta (Z.of_nat n) /\
    (occupied (t_grid st') + n * Z.to_nat (@GRID_WIDTH dims4) = occupied (t_grid st_one_line) + 4)%nat.
Proof.
  destruct st_one_line_pre as (H1 & H2 & H3).
  exact (@lock_piece_count dims4 _ _ H1 H2 H3).
Defined.

(** A T piece written at the top of an empty 4 x 4 grid. *)
Definition t_top : piece := mkPiece [[0; 1; 0]; [1; 1; 1]] (128, 0, 128) 1 0.

Lemma lock_cells_writes_witness :
  (@grid_wf dims4 (@empty_grid dims4) /\
   forall x y, In (x, y) (shape_cells (pshape t_top)) ->
     0 <= px t_top + x < @GRID_WIDTH dims4 /\ 0 <= py t_top + y < @GRID_HEIGHT dims4) /\
  exists g', lock_cells (@empty_grid dims4) t_top = Some g' /\ @grid_wf dims4 g' /\
    forall x y, 0 <= x < @GRID_WIDTH dims4 -> 0 <= y < @GRID_HEIGHT dims4 ->
      grid_get g' x y =
        if decide ((x - px t_top, y - py t_top) ∈ shape_cells (pshape t_top))
        then Some (CColor (pcolor t_top)) else grid_get (@empty_grid dims4) x y.
Proof.
  assert (H1 : @grid_wf dims4 (@empty_grid dims4)) by eval_decide.
  assert (H2 : forall x y, In (x, y) (shape_cells (pshape t_top)) ->
     0 <= px t_top + x < @GRID_WIDTH dims4 /\ 0 <= py t_top + y < @GRID_HEIGHT dims4).
  { intros x y Hin. vm_compute in Hin.
    repeat destruct Hin as [[= <- <-] | Hin]; [..| done]; simpl; lia. }
  split; [split; assumption |]. exact (@lock_cells_writes dims4 _ t_top H1 H2).
Defined.
