(* ===== verification/Liveness.v ===== *)
(** * Liveness: the falling piece lands

    Gravity makes progress: from any running state, the gravity step of
    [update] (lines 137-142), and the timer of the main loop that triggers
    it (lines 214-216), bring the piece in finitely many steps to a
    position from which it cannot fall, where the next gravity step locks
    it.  [eventually R P a] says that every sequence of [R]-steps from [a]
    reaches a state satisfying [P]; [eventually_measure] proves it from an
    invariant and a decreasing measure.  The same falling argument shows
    that the hard drop of [K_SPACE] is a run of gravity ticks ([ticks]). *)

From S2P Require Import Prelude Config Grid Piece Engine Loop.

Section Eventually.
Context {A : Type} (R : A -> A -> Prop).

Inductive eventually (P : A -> Prop) : A -> Prop :=
  | ev_now a : P a -> eventually P a
  | ev_step a :
      (exists b, R a b) -> (forall b, R a b -> eventually P b) -> eventually P a.

(** From an invariant and a measure that every step outside [P] decreases. *)
Lemma eventually_measure (P I : A -> Prop) (m : A -> nat) :
  (forall a, I a -> P a \/
     ((exists b, R a b) /\ forall b, R a b -> I b /\ (m b < m a)%nat)) ->
  forall a, I a -> eventually P a.
Proof.
  intros Hstep a. remember (m a) as n eqn:Hn. revert a Hn.
  induction n as [n IH] using lt_wf_ind. intros a -> Ha.
  destruct (Hstep a Ha) as [HP | [Hex Hall]]; [by apply ev_now |].
  apply ev_step; [done |]. intros b Hb. destruct (Hall b Hb) as [Ib Hlt].
  by apply (IH (m b)).
Qed.

End Eventually.

Section Liveness.
Context {D : Dims}.

(** The piece cannot move down: the next gravity step locks it. *)
Definition landed (st : tetris) : bool :=
  negb (valid_move (t_grid st) (current_piece st) 0 1).

(** A gravity step of a running game, with any random choice. *)
Definition gravity (st st' : tetris) : Prop :=
  game_over st = false /\ exists c, c ∈ SHAPES /\ update st c = Some st'.

(** The rows left below the piece's anchor. *)
Definition fall_measure (st : tetris) : nat := Z.to_nat (GRID_HEIGHT - py (current_piece st)).

Lemma update_not_landed (st : tetris) (c : shape) :
  game_over st = false -> landed st = false ->
  update st c = Some (set_piece st (shift_piece (current_piece st) 0 1)).
Proof.
  unfold update, landed. intros -> Hl. apply negb_false_iff in Hl. simpl. by rewrite Hl.
Qed.

Lemma update_landed (st : tetris) (c : shape) :
  game_over st = false -> landed st = true ->
  update st c = lock_piece st (current_piece st) c.
Proof.
  unfold update, landed. intros -> Hl. apply negb_true_iff in Hl. simpl. by rewrite Hl.
Qed.

(** One gravity step of a running game that has not landed moves the
    piece one row down, keeps the invariant and decreases the measure. *)
Lemma fall_step (st st' : tetris) (c : shape) :
  engine_inv st -> game_over st = false -> landed st = false ->
  update st c = Some st' ->
  st' = set_piece st (shift_piece (current_piece st) 0 1) /\
  engine_inv st' /\ (fall_measure st' < fall_measure st)%nat.
Proof.
  intros Hi Hg Hl Hu. rewrite update_not_landed in Hu by done. injection Hu as <-.
  unfold landed in Hl. apply negb_false_iff in Hl.
  pose proof (valid_down_bound _ _ (orientation_cells_nonempty _ (inv_shape _ Hi)) Hl).
  split_and!; [done | by apply move_inv |]. unfold fall_measure. simpl. lia.
Qed.

Lemma some_shape : [[1; 1; 1; 1]] ∈ SHAPES.
Proof. eval_decide. Qed.

(** C25 (liveness): in a running game, every sequence of gravity steps
    reaches a state where the piece has landed, and from there the next
    gravity step is [lock_piece] on it. *)
Theorem gravity_lands (st : tetris) :
  engine_inv st -> game_over st = false ->
  eventually gravity
    (fun s => game_over s = false /\ landed s = true /\
       forall c, update s c = lock_piece s (current_piece s) c) st.
Proof.
  intros Hinv Hgo.
  apply (eventually_measure gravity _ (fun s => engine_inv s /\ game_over s = false)
           fall_measure); [| done].
  intros s [Hi Hg]. destruct (landed s) eqn:Hl.
  - left. split_and!; [done | done |]. intros c. by apply update_landed.
  - right. split.
    + exists (set_piece s (shift_piece (current_piece s) 0 1)).
      split; [done |]. exists [[1; 1; 1; 1]]. split; [apply some_shape |].
      by apply update_not_landed.
    + intros b (_ & c & _ & Hu). destruct (fall_step s b c Hi Hg Hl Hu) as (-> & ? & ?).
      done.
Qed.






(** A frame of the main loop in which the player does nothing, [dt]
    milliseconds after the previous one. *)
Definition idle_frame (dt : Z) (ls ls' : loop_state) : Prop :=
  running ls = true /\ exists c, c ∈ SHAPES /\ frame ls dt [] c = Some ls'.

(** Rows left to fall, weighted by a full timer period, plus the time left
    before the next gravity step. *)
Definition idle_measure (ls : loop_state) : nat :=
  (fall_measure (game ls) * Z.to_nat (fall_speed + 1) +
   Z.to_nat (fall_speed - fall_time ls))%nat.

(** An idle frame of a running game whose piece can still fall: the timer
    advances, or it triggers gravity, which moves the piece down and resets
    the timer; the random choice plays no part. *)
Lemma frame_idle_falling (ls : loop_state) (dt : Z) (c : shape) :
  game_over (game ls) = false -> landed (game ls) = false ->
  frame ls dt [] c = Some
    (if fall_speed <=? fall_time ls + dt
     then mkLoop (set_piece (game ls) (shift_piece (current_piece (game ls)) 0 1)) (running ls) 0
     else mkLoop (game ls) (running ls) (fall_time ls + dt)).
Proof.
  intros Hg Hl. unfold frame. simpl. rewrite Hg, andb_true_r.
  destruct (fall_speed <=? _); [by rewrite update_not_landed | done].
Qed.

(** C26 (liveness): if the player presses nothing and every frame lasts
    [dt > 0] milliseconds, every run of the main loop from a running game
    (timer at [fall_time >= 0]) reaches a frame where the piece has
    landed: the timer keeps triggering gravity, and gravity keeps moving the
    piece down. *)
Theorem idle_frames_land (ls : loop_state) (dt : Z) :
  0 < dt -> engine_inv (game ls) -> game_over (game ls) = false ->
  running ls = true -> 0 <= fall_time ls ->
  eventually (idle_frame dt)
    (fun l => running l = true /\ game_over (game l) = false /\ landed (game l) = true) ls.
Proof.
  intros Hdt Hinv Hgo Hrun Hft.
  apply (eventually_measure (idle_frame dt) _
           (fun l => engine_inv (game l) /\ game_over (game l) = false /\
                     running l = true /\ 0 <= fall_time l) idle_measure); [| done].
  intros l (Hi & Hg & Hr & Hf). destruct (landed (game l)) eqn:Hl; [by left |]. right.
  split.
  - eexists. split; [done |]. exists [[1; 1; 1; 1]].
    split; [apply some_shape | by apply frame_idle_falling].
  - intros b (_ & c & _ & Hb). rewrite frame_idle_falling in Hb by done. injection Hb as <-.
    unfold idle_measure. destruct (fall_speed <=? fall_time l + dt) eqn:Ht; simpl.
    + destruct (fall_step (game l) _ c Hi Hg Hl (update_not_landed _ _ Hg Hl))
        as (_ & Hi' & Hm).
      split_and!; [done | done | done | lia |]. unfold fall_speed in *. simpl. nia.
    + apply Z.leb_gt in Ht. unfold fall_speed in *. split_and!; try done; lia.
Qed.

End Liveness.

(** ** Witnesses *)

Lemma st_t_top_pre : @engine_inv dims4 st_t_top /\ game_over st_t_top = false.
Proof. split; [eval_decide | reflexivity]. Qed.


(** The T piece at the top of the empty board has not landed: the witnesses
    below start where gravity still has work to do. *)
Lemma gravity_lands_witness :
  (@engine_inv dims4 st_t_top /\ game_over st_t_top = false /\ @landed dims4 st_t_top = false) /\
  eventually (@gravity dims4)
    (fun s => game_over s = false /\ @landed dims4 s = true /\
       forall c, @update dims4 s c = @lock_piece dims4 s (current_piece s) c) st_t_top.
Proof.
  destruct st_t_top_pre as (H1 & H2).
  split; [split_and!; [assumption | assumption | reflexivity] |].
  exact (@gravity_lands dims4 st_t_top H1 H2).
Defined.

Lemma idle_frames_land_witness :
  (0 < 16 /\ @engine_inv dims4 st_t_top /\ game_over st_t_top = false /\
   running (mkLoop st_t_top true 0) = true /\ 0 <= fall_time (mkLoop st_t_top true 0) /\
   @landed dims4 st_t_top = false) /\
  eventually (@idle_frame dims4 16)
    (fun l => running l = true /\ game_over (game l) = false /\ @landed dims4 (game l) = true)
    (mkLoop st_t_top true 0).
Proof.
  destruct st_t_top_pre as (H1 & H2).
  assert (H0 : 0 < 16) by lia.
  assert (H3 : running (mkLoop st_t_top true 0) = true) by reflexivity.
  assert (H4 : 0 <= fall_time (mkLoop st_t_top true 0)) by (simpl; lia).
  split; [split_and!; try assumption; reflexivity |].
  exact (@idle_frames_land dims4 (mkLoop st_t_top true 0) 16 H0 H1 H2 H3 H4).
Defined.
