(* ===== verification/Render.v ===== *)
(** * Rendering: [Tetris.draw] and the drawing of a frame

    [draw] (lines 144-174) paints the grid, the falling piece and the texts
    on the pygame screen; the main loop clears the screen first (lines
    218-221).  The screen is modelled by the list of drawing commands issued,
    in order: [pygame.draw.rect] with its colour, rectangle and border width
    (0 for a filled rectangle, pygame's default), [screen.blit] of a text
    rendered at a font size, and [screen.fill].  A Python [IndexError] while
    reading [self.grid] is [None].

    The theorems show that every rectangle lies in the playfield, that the
    filled rectangles are exactly the occupied cells plus the four cells of
    the falling piece while the game runs, and that the texts on the screen
    determine the score and the game-over flag. *)

From stdpp Require Import strings pretty.
From S2P Require Import Prelude Config Grid Piece Engine Loop Cells.

(** [BLACK], [WHITE], [GRAY] (lines 8-10). *)
Definition BLACK : color := (0, 0, 0).
Definition WHITE : color := (255, 255, 255).
Definition GRAY : color := (128, 128, 128).

(** The colour of the game-over text (line 173). *)
Definition RED : color := (255, 0, 0).

(** [CELL_SIZE = 30] (line 22). *)
Definition CELL_SIZE : Z := 30.

(** A pygame rectangle [(left, top, width, height)]. *)
Definition rect : Type := Z * Z * Z * Z.

Inductive draw_cmd : Type :=
  | Fill (c : color)                                  (* screen.fill(c) *)
  | Rect (c : color) (r : rect) (border : Z)          (* pygame.draw.rect(screen, c, r, border) *)
  | Blit (font_size : Z) (text : string) (c : color) (pos : Z * Z).
      (* screen.blit(SysFont(None, font_size).render(text, True, c), pos) *)

(** [f"Score: {self.score}"] (line 168). *)
Definition score_text (n : Z) : string := "Score: " +:+ pretty n.

(** The square of the cell in column [x], row [y]. *)
Definition cell_rect (x y : Z) : rect := (x * CELL_SIZE, y * CELL_SIZE, CELL_SIZE, CELL_SIZE).

(** A filled rectangle: [pygame.draw.rect] with border width 0. *)
Definition is_filled (d : draw_cmd) : bool :=
  match d with Rect _ _ 0 => true | _ => false end.

(** The texts blitted, in order. *)
Definition texts (ds : list draw_cmd) : list string :=
  omap (fun d => match d with Blit _ t _ _ => Some t | _ => None end) ds.

Section Render.
Context {D : Dims}.

(** [SCREEN_WIDTH], [SCREEN_HEIGHT] (lines 25-26). *)
Definition SCREEN_WIDTH : Z := CELL_SIZE * (GRID_WIDTH + 6).
Definition SCREEN_HEIGHT : Z := CELL_SIZE * GRID_HEIGHT.

(** The commands for the cell of a grid holding [c] (lines 148-154). *)
Definition cell_cmds (x y : Z) (c : cell) : list draw_cmd :=
  Rect GRAY (cell_rect x y) 1 ::
  match c with CZero => [] | CColor col => [Rect col (cell_rect x y) 0] end.

(** The body of the inner loop: the border, then [if self.grid[y][x]:]. *)
Definition draw_cell (g : grid) (y x : Z) : option (list draw_cmd) :=
  r ← g.[y]; c ← r.[x]; Some (cell_cmds x y c).

(** [for y in range(GRID_HEIGHT): for x in range(GRID_WIDTH): ...]
    (lines 146-154). *)
Definition draw_grid (g : grid) : option (list draw_cmd) :=
  rows ← mapM (fun y =>
            cs ← mapM (draw_cell g y) (range GRID_WIDTH); Some (List.concat cs))
          (range GRID_HEIGHT);
  Some (List.concat rows).

(** The loops over [enumerate(self.current_piece["shape"])] (lines
    157-164). *)
Definition draw_piece (p : piece) : list draw_cmd :=
  flat_map (fun '(y, row) =>
    flat_map (fun '(x, c) =>
      if bit_truthy c then [Rect (pcolor p) (cell_rect (px p + x) (py p + y)) 0] else [])
      (enumerate row))
    (enumerate (pshape p)).

(** [Tetris.draw] (lines 144-174). *)
Definition draw (st : tetris) : option (list draw_cmd) :=
  gcmds ← draw_grid (t_grid st);
  Some (gcmds ++
        (if negb (game_over st) then draw_piece (current_piece st) else []) ++
        [Blit 36 (score_text (score st)) WHITE (CELL_SIZE * GRID_WIDTH + 10, 20)] ++
        (if game_over st
         then [Blit 48 "GAME OVER!" RED (SCREEN_WIDTH `div` 2 - 120, SCREEN_HEIGHT `div` 2 - 30)]
         else [])).

(** [screen.fill(BLACK); game.draw()] at the end of a frame (lines
    218-220). *)
Definition display (ls : loop_state) : option (list draw_cmd) :=
  cmds ← draw (game ls); Some (Fill BLACK :: cmds).

(** The grid's commands, cell by cell, in the order of the loops. *)
Definition grid_cmds (g : grid) : list draw_cmd :=
  List.concat ((fun '(y, r) => List.concat ((fun '(x, c) => cell_cmds x y c) <$> enumerate r))
                 <$> enumerate g).

Lemma dim_of_length {A} (n : Z) (l : list A) :
  0 < n -> length l = Z.to_nat n -> n = Z.of_nat (length l).
Proof. lia. Qed.

(** On a well-formed grid every index of the loops is in range: the loops
    raise no [IndexError] and issue [grid_cmds]. *)
Lemma draw_grid_wf (g : grid) : grid_wf g -> draw_grid g = Some (grid_cmds g).
Proof.
  intros [Hlen Hrows]. unfold draw_grid.
  rewrite (dim_of_length GRID_HEIGHT g GRID_HEIGHT_pos Hlen).
  erewrite mapM_range; [done |]. intros i r Hr. simpl.
  pose proof (lookup_lt_Some _ _ _ Hr).
  rewrite (dim_of_length GRID_WIDTH r GRID_WIDTH_pos (Forall_lookup_1 _ _ _ _ Hrows Hr)).
  erewrite mapM_range; [done |]. intros j c Hc. pose proof (lookup_lt_Some _ _ _ Hc).
  unfold draw_cell. py_in_range. rewrite !Nat2Z.id, Hr. simpl. py_in_range.
  by rewrite Nat2Z.id, Hc.
Qed.

(** The rectangle lies within the playfield, the [GRID_WIDTH] x
    [GRID_HEIGHT] cells at the left of the screen. *)
Definition in_playfield (r : rect) : Prop :=
  let '(x, y, w, h) := r in
  0 <= x /\ x + w <= CELL_SIZE * GRID_WIDTH /\ 0 <= y /\ y + h <= CELL_SIZE * GRID_HEIGHT.

Definition rect_in_playfield (d : draw_cmd) : Prop :=
  match d with Rect _ r _ => in_playfield r | _ => True end.

(** ** The commands of the loops *)

Lemma cell_rect_in_playfield (x y : Z) :
  0 <= x < GRID_WIDTH -> 0 <= y < GRID_HEIGHT -> in_playfield (cell_rect x y).
Proof. unfold in_playfield, cell_rect, CELL_SIZE. lia. Qed.

(** The falling piece is drawn as one filled square per cell of its shape. *)
Lemma draw_piece_cells (p : piece) :
  draw_piece p =
  (fun '(x, y) => Rect (pcolor p) (cell_rect (px p + x) (py p + y)) 0) <$> shape_cells (pshape p).
Proof.
  unfold draw_piece, shape_cells. rewrite fmap_flat_map. apply flat_map_ext. intros [y row].
  rewrite fmap_flat_map. apply flat_map_ext. intros [x c]. by destruct (bit_truthy c).
Qed.

Lemma grid_cmds_Forall (P : draw_cmd -> Prop) (g : grid) :
  (forall x y r c, (y, r) ∈ enumerate g -> (x, c) ∈ enumerate r -> Forall P (cell_cmds x y c)) ->
  Forall P (grid_cmds g).
Proof.
  intros HP. unfold grid_cmds. apply Forall_concat, Forall_fmap, Forall_forall.
  intros [y r] Hy%list_elem_of_In.
  apply Forall_concat, Forall_fmap, Forall_forall. intros [x c] Hx%list_elem_of_In. eauto.
Qed.

Lemma grid_cmds_in_playfield (g : grid) : grid_wf g -> Forall rect_in_playfield (grid_cmds g).
Proof.
  intros [Hlen Hrows]. apply grid_cmds_Forall.
  intros x y r c [Hy Hr]%elem_of_enumerate_from [Hx Hc]%elem_of_enumerate_from.
  rewrite Z.sub_0_r in Hr, Hc. apply lookup_lt_Some in Hc as Hxl, Hr as Hyl.
  rewrite (Forall_lookup_1 _ _ _ _ Hrows Hr) in Hxl.
  assert (Hin : in_playfield (cell_rect x y)) by (apply cell_rect_in_playfield; lia).
  destruct c; repeat (constructor; [exact Hin |]); constructor.
Qed.

(** A valid piece below the top of the grid is drawn within the playfield. *)
Lemma draw_piece_in_playfield (g : grid) (p : piece) :
  valid_move g p 0 0 = true -> 0 <= py p -> Forall rect_in_playfield (draw_piece p).
Proof.
  intros Hv Hpy. rewrite draw_piece_cells. apply Forall_fmap, Forall_forall.
  intros [x y] Hin. pose proof (proj1 (in_shape_cells _ x y) Hin) as (Hx & Hy & _).
  apply valid_move_spec with (x := x) (y := y) in Hv; [| done].
  apply blocked_false in Hv as (Hbx & Hby & _). simpl. apply cell_rect_in_playfield; lia.
Qed.

(** ** Counting the filled squares *)

Lemma length_filter_concat_enumerate {A} (k : Z -> A -> list draw_cmd) (n : A -> nat)
    (i : Z) (l : list A) :
  (forall j a, length (filter (fun d => is_filled d = true) (k j a)) = n a) ->
  length (filter (fun d => is_filled d = true)
            (List.concat ((fun '(j, a) => k j a) <$> enumerate_from i l))) = sum_list_with n l.
Proof.
  intros Hk. revert i. induction l as [|a l IH]; intros i; simpl; [done |].
  by rewrite list.filter_app, length_app, Hk, IH.
Qed.

Lemma row_count_sum (r : row) :
  row_count r = sum_list_with (fun c => if cell_truthy c then 1%nat else 0%nat) r.
Proof.
  unfold row_count. induction r as [|c r IH]; [done |].
  rewrite list.filter_cons. simpl. case_decide as Hc; rewrite Hc || apply not_true_is_false in Hc;
    rewrite ?Hc; simpl; lia.
Qed.

(** The filled squares of the grid are its occupied cells. *)
Lemma grid_cmds_filled (g : grid) :
  length (filter (fun d => is_filled d = true) (grid_cmds g)) = occupied g.
Proof.
  unfold grid_cmds, occupied, enumerate. apply length_filter_concat_enumerate.
  intros y r. rewrite row_count_sum. apply length_filter_concat_enumerate.
  intros x [|col]; done.
Qed.

Lemma draw_piece_filled (p : piece) :
  length (filter (fun d => is_filled d = true) (draw_piece p)) = length (shape_cells (pshape p)).
Proof.
  rewrite draw_piece_cells. induction (shape_cells (pshape p)) as [|[x y] l IH]; [done |].
  rewrite fmap_cons, list.filter_cons, decide_True by done. simpl. by rewrite IH.
Qed.

(** ** The texts *)

Lemma texts_nil (ds : list draw_cmd) :
  Forall (fun d => match d with Blit _ _ _ _ => False | _ => True end) ds -> texts ds = [].
Proof. induction 1 as [|d ds Hd _ IH]; [done |]. destruct d; done. Qed.

Lemma draw_texts (st : tetris) :
  grid_wf (t_grid st) ->
  texts <$> draw st = Some (score_text (score st) :: if game_over st then ["GAME OVER!"] else []).
Proof.
  intros Hwf. unfold draw. rewrite draw_grid_wf by done. simpl. f_equal.
  unfold texts. rewrite !omap_app. fold (texts (grid_cmds (t_grid st))).
  rewrite texts_nil by (apply grid_cmds_Forall; intros x y r [|col] _ _; repeat constructor).
  assert (Hp : texts (draw_piece (current_piece st)) = []).
  { apply texts_nil. rewrite draw_piece_cells. apply Forall_fmap, Forall_forall. by intros [x y]. }
  unfold texts in Hp. destruct (game_over st); simpl; [done |]. by rewrite Hp.
Qed.

(** ** Properties of the drawing *)

(** C27 (bounds): in every state of the invariant, [draw] raises no
    exception and every rectangle it draws, of the grid or of the falling
    piece, lies within the [GRID_WIDTH * CELL_SIZE] x
    [GRID_HEIGHT * CELL_SIZE] playfield; the side panel only holds text. *)
Theorem draw_in_playfield (st : tetris) :
  engine_inv st -> exists cmds, draw st = Some cmds /\ Forall rect_in_playfield cmds.
Proof.
  intros Hi. unfold draw. rewrite draw_grid_wf by apply Hi. eexists. split; [done |].
  apply Forall_app. split; [apply grid_cmds_in_playfield, Hi |].
  apply Forall_app. split.
  - destruct (game_over st) eqn:Hg; simpl; [constructor |].
    apply (draw_piece_in_playfield (t_grid st)); [by apply Hi | apply Hi].
  - destruct (game_over st); repeat constructor.
Qed.

(** C28 (functional): the filled squares [draw] paints are the occupied
    cells of the grid, plus the four cells of the falling piece while the
    game is not over. *)
Theorem draw_filled_count (st : tetris) (cmds : list draw_cmd) :
  engine_inv st -> draw st = Some cmds ->
  length (filter (fun d => is_filled d = true) cmds) =
  (occupied (t_grid st) + if game_over st then 0 else 4)%nat.
Proof.
  intros Hi. unfold draw. rewrite draw_grid_wf by apply Hi. intros [= <-].
  rewrite !list.filter_app, !length_app, grid_cmds_filled.
  destruct (game_over st); simpl; [lia |].
  rewrite draw_piece_filled, (proj1 (orientation_cells _ (inv_shape _ Hi))). lia.
Qed.

(** C29 (roundtrip): the texts on the screen determine the score and the
    game-over flag: two well-formed states drawn with the same commands
    have the same score ([f"Score: {self.score}"] prints the integer in
    decimal, injectively) and are both over or both running. *)
Theorem draw_texts_determine (st1 st2 : tetris) (cmds : list draw_cmd) :
  grid_wf (t_grid st1) -> grid_wf (t_grid st2) ->
  draw st1 = Some cmds -> draw st2 = Some cmds ->
  score st1 = score st2 /\ game_over st1 = game_over st2.
Proof.
  intros Hw1 Hw2 H1 H2. pose proof (draw_texts st1 Hw1) as T1. pose proof (draw_texts st2 Hw2) as T2.
  rewrite H1 in T1. rewrite H2 in T2. simpl in T1, T2. rewrite T1 in T2.
  injection T2 as Hs Hg. cbn in Hs. apply pretty_Z_inj in Hs.
  split; [done |]. destruct (game_over st1), (game_over st2); simpl in *; congruence.
Qed.

End Render.

(** ** Witnesses *)

Lemma draw_in_playfield_witness :
  @engine_inv dims4 st_one_line /\
  exists cmds, @draw dims4 st_one_line = Some cmds /\ Forall (@rect_in_playfield dims4) cmds.
Proof.
  destruct st_one_line_pre as (H1 & _ & _).
  split; [exact H1 | exact (@draw_in_playfield dims4 st_one_line H1)].
Defined.

Definition st_one_line_cmds : list draw_cmd :=
  match @draw dims4 st_one_line with Some c => c | None => [] end.

Lemma draw_filled_count_witness :
  (@engine_inv dims4 st_one_line /\ @draw dims4 st_one_line = Some st_one_line_cmds) /\
  length (filter (fun d => is_filled d = true) st_one_line_cmds) =
  (occupied (t_grid st_one_line) + if game_over st_one_line then 0 else 4)%nat.
Proof.
  destruct st_one_line_pre as (H1 & _ & _).
  assert (E : @draw dims4 st_one_line = Some st_one_line_cmds) by (vm_compute; reflexivity).
  split; [split; [exact H1 | exact E] |].
  exact (@draw_filled_count dims4 st_one_line st_one_line_cmds H1 E).
Defined.

(** Two states that differ in their falling piece but are both over. *)
Definition st_over1 : tetris := set_game_over st_one_line true.
Definition st_over2 : tetris := set_piece st_over1 o_top.
Definition st_over_cmds : list draw_cmd :=
  match @draw dims4 st_over1 with Some c => c | None => [] end.

Lemma draw_texts_determine_witness :
  (@grid_wf dims4 (t_grid st_over1) /\ @grid_wf dims4 (t_grid st_over2) /\
   @draw dims4 st_over1 = Some st_over_cmds /\ @draw dims4 st_over2 = Some st_over_cmds) /\
  score st_over1 = score st_over2 /\ game_over st_over1 = game_over st_over2.
Proof.
  assert (H1 : @grid_wf dims4 (t_grid st_over1)) by eval_decide.
  assert (H2 : @grid_wf dims4 (t_grid st_over2)) by eval_decide.
  assert (E1 : @draw dims4 st_over1 = Some st_over_cmds) by (vm_compute; reflexivity).
  assert (E2 : @draw dims4 st_over2 = Some st_over_cmds) by (vm_compute; reflexivity).
  split; [split_and!; assumption |].
  exact (@draw_texts_determine dims4 _ _ st_over_cmds H1 H2 E1 E2).
Defined.
